(** * musquito / buzzer: streaming node pool, streaming loader, sound state
      machine and engine lifecycle

    A shallow embedding of the parts of the audio engine the specification
    talks about, and the properties of the specification settled against it.

    Conventions of the embedding:
    - JavaScript objects that are mutated in place become records threaded
      through the functions (explicit state passing); audio elements, which
      are shared between the pool, the loader and the listeners, live in a
      store indexed by an identity.
    - JavaScript numbers are idealised as finite rationals ([Q]); rounding,
      [NaN] and the infinities are outside the model. A division whose
      divisor is zero has no finite value and is modelled by [None].
    - Closures handed to queues, to [setTimeout] and to [addEventListener]
      are defunctionalised into small inductive types.
    - [this._fire(...)] and assignments to [_state] additionally append to a
      ghost trace, so that the order of events and the states passed
      through can be stated.
    - A method that can throw returns the exception or its result together
      with the object as the method left it.

    The sources at hand do not contain Html5AudioPool.js, BaseBuzz.js and
    the queue utility; what the embedded code needs of them is modelled
    from the specification and marked as such. *)

From Stdlib Require Import QArith Qabs Qminmax.
From stdpp Require Import gmap strings list.

Open Scope list_scope.
Open Scope nat_scope.

(** ** Streaming node pool (Html5AudioPool) *)

Module Pool.

(** A pooled streaming playback primitive. [audio] is the identity of the
    underlying audio element, [soundId] the sound it is bound to. *)
Record Handle := mkHandle {
  audio : nat;
  soundId : option nat
}.

(** One entry of [_resourceNodesMap]. *)
Record PoolEntry := mkEntry {
  unallocated : list Handle;
  allocated : gmap nat (list Handle)
}.

Record Html5AudioPool := mkPool {
  _maxNodesPerSource : nat;
  _resourceNodesMap : gmap string PoolEntry;
  (** identity given to the next [new Audio()] *)
  _nextAudio : nat
}.

Inductive PoolError :=
| PoolExhausted (url : string)
| NoFreeNodes (groupId : nat).

Definition emptyEntry : PoolEntry := mkEntry [] ∅.

(** [new Html5AudioPool(maxNodesPerSource, heap)] *)
Definition create (maxNodes : nat) : Html5AudioPool := mkPool maxNodes ∅ 0.

Definition allocatedCount (m : gmap nat (list Handle)) : nat :=
  map_fold (λ _ hs acc, length hs + acc) 0 m.

(** Total handles of an entry: unallocated plus all allocated. *)
Definition totalHandles (e : PoolEntry) : nat :=
  length (unallocated e) + allocatedCount (allocated e).

Definition entryOf (url : string) (p : Html5AudioPool) : PoolEntry :=
  default emptyEntry (_resourceNodesMap p !! url).

(** Number of live handles the pool holds for [url]. *)
Definition liveHandles (url : string) (p : Html5AudioPool) : nat :=
  totalHandles (entryOf url p).

(** Modelled from the spec: Html5AudioPool.js is not part of the sources
    (only its test suite is). "[allocateForSource(url)]: ensures a pool
    entry exists for [url]; if total handles for [url] (unallocated + all
    allocated) is below the configured maximum, creates a new handle and
    appends it to [unallocated], returning it. If the maximum is already
    reached, fails with a [PoolExhausted] error naming the resource." *)
Definition allocateForSource (url : string) (p : Html5AudioPool)
  : (PoolError + Handle) * Html5AudioPool :=
  let e := entryOf url p in
  if decide (totalHandles e < _maxNodesPerSource p) then
    let h := mkHandle (_nextAudio p) None in
    (inr h,
     mkPool (_maxNodesPerSource p)
            (<[url := mkEntry (unallocated e ++ [h]) (allocated e)]> (_resourceNodesMap p))
            (S (_nextAudio p)))
  else
    (inl (PoolExhausted url),
     mkPool (_maxNodesPerSource p)
            (<[url := e]> (_resourceNodesMap p))
            (_nextAudio p)).

(** Modelled from the spec: "[allocateForGroup(url, groupId)]: if
    [unallocated] for [url] is non-empty, pops one handle and moves it
    into [allocated[groupId]] (appending if the group already has
    handles), returning it. Otherwise, if under the maximum, creates a new
    handle directly into [allocated[groupId]]. If at maximum with no
    unallocated handles, fails with [PoolExhausted]." *)
Definition allocateForGroup (url : string) (groupId : nat) (p : Html5AudioPool)
  : (PoolError + Handle) * Html5AudioPool :=
  let e := entryOf url p in
  let group := default [] (allocated e !! groupId) in
  match reverse (unallocated e) with
  | h :: rest =>
      (inr h,
       mkPool (_maxNodesPerSource p)
              (<[url := mkEntry (reverse rest)
                                (<[groupId := group ++ [h]]> (allocated e))]>
                 (_resourceNodesMap p))
              (_nextAudio p))
  | [] =>
      if decide (totalHandles e < _maxNodesPerSource p) then
        let h := mkHandle (_nextAudio p) None in
        (inr h,
         mkPool (_maxNodesPerSource p)
                (<[url := mkEntry [] (<[groupId := group ++ [h]]> (allocated e))]>
                   (_resourceNodesMap p))
                (S (_nextAudio p)))
      else
        (inl (PoolExhausted url),
         mkPool (_maxNodesPerSource p)
                (<[url := e]> (_resourceNodesMap p))
                (_nextAudio p))
  end.

(** Modelled from the spec: "[releaseForSource(url)]: discards the entire
    pool entry for [url]". *)
Definition releaseForSource (url : string) (p : Html5AudioPool) : Html5AudioPool :=
  mkPool (_maxNodesPerSource p) (delete url (_resourceNodesMap p)) (_nextAudio p).

(** Modelled from the spec: "[destroyAllocatedAudio(url, groupId, handle)]:
    removes the specific handle from [allocated[groupId]]; does not return
    it to the pool." The loader passes the audio element as the handle and
    [undefined] as the group of a load that was not made for a group; no
    group list is then selected and nothing is removed. *)
Definition destroyAllocatedAudio (url : string) (groupId : option nat) (a : nat)
    (p : Html5AudioPool) : Html5AudioPool :=
  match groupId, _resourceNodesMap p !! url with
  | Some g, Some e =>
      mkPool (_maxNodesPerSource p)
             (<[url := mkEntry (unallocated e)
                  (alter (filter (λ h, audio h ≠ a)) g (allocated e))]>
                (_resourceNodesMap p))
             (_nextAudio p)
  | _, _ => p
  end.

(** Modelled from the spec: "[dispose()]: tears down every handle across
    every resource and clears the pool's internal map." *)
Definition dispose (p : Html5AudioPool) : Html5AudioPool :=
  mkPool (_maxNodesPerSource p) ∅ (_nextAudio p).

(** A sequence of [allocateForSource] calls; a call that throws leaves the
    caller with the pool as the failed call left it. *)
Fixpoint allocateAll (urls : list string) (p : Html5AudioPool) : Html5AudioPool :=
  match urls with
  | [] => p
  | url :: rest => allocateAll rest (snd (allocateForSource url p))
  end.

(** No resource holds more handles than the configured maximum. *)
Definition bounded (p : Html5AudioPool) : Prop :=
  ∀ url, liveHandles url p ≤ _maxNodesPerSource p.

End Pool.

(** ** Methods that mutate an object and may throw *)

Module Js.

Inductive JsError :=
| TypeError (msg : string)
| PoolFailure (e : Pool.PoolError).

(** A method of an object of type [S]: from the object before the call
    to its result, or the exception it throws, and the object after. *)
Definition M (S A : Type) : Type := S → (JsError + A) * S.

Definition ret {S A} (a : A) : M S A := λ s, (inr a, s).
Definition throw {S A} (e : JsError) : M S A := λ s, (inl e, s).
Definition bind {S A B} (m : M S A) (k : A → M S B) : M S B :=
  λ s, match m s with
       | (inr a, s') => k a s'
       | (inl e, s') => (inl e, s')
       end.

Notation "'let*' x ':=' m 'in' k" := (bind m (λ x, k))
  (at level 10, x name, m at level 100, k at level 200).
Notation "m ';;' k" := (bind m (λ _, k))
  (at level 100, k at level 200, right associativity).

End Js.

(** ** Streaming loader (MediaLoader.js) *)

Module Loader.
Import Pool Js.

(** [new DownloadResult(url, value, error)]; the value of a media load is
    the audio element. *)
Record DownloadResult := mkResult {
  r_url : string;
  r_value : option nat;
  r_error : option string
}.

Inductive Promise :=
| Pending
| Resolved (r : DownloadResult)
| Rejected (e : JsError).

(** The variables captured by the two closures that one call of [_load]
    creates: [url], [groupId], [audio] and the [resolve] of its promise. *)
Record LoadCall := mkCall {
  c_url : string;
  c_groupId : option nat;
  c_audio : nat;
  c_promise : nat
}.

Inductive Listener :=
| OnCanPlayThrough (c : LoadCall)
| OnError (c : LoadCall).

(** The part of an HTML5 audio element the loader touches. *)
Record AudioEl := mkAudio {
  a_src : string;
  a_readyState : nat;
  a_currentTime : Q;
  a_listeners : list (string * Listener)
}.

(** [new Audio()] *)
Definition newAudio : AudioEl := mkAudio "" 0 0 [].

(** An element of [_bufferingAudios]. *)
Record BufferingAudio := mkBuffering {
  b_url : string;
  b_groupId : option nat;
  b_audio : nat;
  b_canplaythrough : Listener;
  b_error : Listener
}.

Record MediaLoader := mkLoader {
  _audioPool : option Html5AudioPool;
  _bufferingAudios : option (list BufferingAudio);
  _disposed : bool;
  (** the audio elements, by identity *)
  audios : gmap nat AudioEl;
  (** the promises returned by [_load], by creation order *)
  promises : gmap nat Promise;
  nextPromise : nat
}.

#[global] Instance LoadCall_eq_dec : EqDecision LoadCall.
Proof. solve_decision. Defined.
#[global] Instance Listener_eq_dec : EqDecision Listener.
Proof. solve_decision. Defined.
#[global] Instance BufferingAudio_eq_dec : EqDecision BufferingAudio.
Proof. solve_decision. Defined.

(** [new MediaLoader(maxNodesPerSource, heap)] *)
Definition create (maxNodes : nat) : MediaLoader :=
  mkLoader (Some (Pool.create maxNodes)) (Some []) false ∅ ∅ 0.

(** *** Computations on the loader that may throw *)

Abbreviation M := (Js.M MediaLoader).

(** Reading [this._audioPool] / [this._bufferingAudios] to call a method
    on it: a [TypeError] once [dispose] has nulled the field. *)
Definition getPool : M Html5AudioPool :=
  λ l, match _audioPool l with
       | Some p => (inr p, l)
       | None => (inl (TypeError "Cannot read properties of null"), l)
       end.

Definition getBuffering : M (list BufferingAudio) :=
  λ l, match _bufferingAudios l with
       | Some b => (inr b, l)
       | None => (inl (TypeError "Cannot read properties of null"), l)
       end.

Definition setPool (p : Html5AudioPool) : M unit :=
  λ l, (inr tt, mkLoader (Some p) (_bufferingAudios l) (_disposed l)
                         (audios l) (promises l) (nextPromise l)).

Definition setBuffering (b : list BufferingAudio) : M unit :=
  λ l, (inr tt, mkLoader (_audioPool l) (Some b) (_disposed l)
                         (audios l) (promises l) (nextPromise l)).

Definition isDisposed : M bool := λ l, (inr (_disposed l), l).

Definition audioEl (a : nat) (l : MediaLoader) : AudioEl :=
  default newAudio (audios l !! a).

Definition getAudio (a : nat) : M AudioEl := λ l, (inr (audioEl a l), l).

Definition setAudio (a : nat) (el : AudioEl) : M unit :=
  λ l, (inr tt, mkLoader (_audioPool l) (_bufferingAudios l) (_disposed l)
                         (<[a := el]> (audios l)) (promises l) (nextPromise l)).

Definition promiseOf (k : nat) (l : MediaLoader) : Promise :=
  default Pending (promises l !! k).

(** Settling a promise: only the first [resolve] or rejection counts. *)
Definition settle (k : nat) (s : Promise) (l : MediaLoader) : MediaLoader :=
  match promiseOf k l with
  | Pending => mkLoader (_audioPool l) (_bufferingAudios l) (_disposed l)
                        (audios l) (<[k := s]> (promises l)) (nextPromise l)
  | _ => l
  end.

Definition resolve (k : nat) (r : DownloadResult) : M unit :=
  λ l, (inr tt, settle k (Resolved r) l).

(** [audio.addEventListener(evt, fn)] *)
Definition addEventListener (a : nat) (evt : string) (fn : Listener) : M unit :=
  let* el := getAudio a in
  setAudio a (mkAudio (a_src el) (a_readyState el) (a_currentTime el)
                      (a_listeners el ++ [(evt, fn)])).

(** [audio.removeEventListener(evt, fn)]; nothing is removed when [fn] is
    [undefined]. *)
Definition removeEventListener (a : nat) (evt : string) (fn : option Listener)
  : M unit :=
  match fn with
  | None => ret tt
  | Some f =>
      let* el := getAudio a in
      setAudio a (mkAudio (a_src el) (a_readyState el) (a_currentTime el)
                          (filter (λ x, x ≠ (evt, f)) (a_listeners el)))
  end.

(** [audioObj[key]] for a key that names a listener; every other key of
    interest here yields [undefined]. *)
Definition prop (obj : BufferingAudio) (key : string) : option Listener :=
  if decide (key = "canplaythrough") then Some (b_canplaythrough obj)
  else if decide (key = "error") then Some (b_error obj)
  else None.

(** [String(audioObj)], the property key that [audioObj[audioObj]] uses. *)
Definition toString (obj : BufferingAudio) : string := "[object Object]".

Fixpoint indexOf (obj : BufferingAudio) (b : list BufferingAudio) : option nat :=
  match b with
  | [] => None
  | x :: rest => if decide (x = obj) then Some 0 else S <$> indexOf obj rest
  end.

(** [b.splice(b.indexOf(obj), 1)]: an index of -1 removes the last
    element. *)
Definition spliceOut (obj : BufferingAudio) (b : list BufferingAudio)
  : list BufferingAudio :=
  match indexOf obj b with
  | Some i => delete i b
  | None => removelast b
  end.

(** [_cleanUp(audioObj)] *)
Definition _cleanUp (audioObj : BufferingAudio) : M unit :=
  removeEventListener (b_audio audioObj) "canplaythrough"
                      (prop audioObj (toString audioObj)) ;;
  removeEventListener (b_audio audioObj) "error"
                      (prop audioObj (toString audioObj)) ;;
  let* b := getBuffering in
  setBuffering (spliceOut audioObj b).

(** The closure [onCanPlayThrough] of [_load]. *)
Definition onCanPlayThrough (c : LoadCall) : M unit :=
  let* d := isDisposed in
  if d then ret tt else
  let* b := getBuffering in
  match List.find (λ obj, bool_decide (b_audio obj = c_audio c)) b with
  | Some audioObj => _cleanUp audioObj
  | None => ret tt
  end ;;
  resolve (c_promise c) (mkResult (c_url c) (Some (c_audio c)) None).

(** The closure [onError] of [_load]. *)
Definition onError (c : LoadCall) (err : string) : M unit :=
  let* d := isDisposed in
  if d then ret tt else
  let* b := getBuffering in
  match List.find (λ obj, bool_decide (b_audio obj = c_audio c)) b with
  | Some audioObj => _cleanUp audioObj
  | None => ret tt
  end ;;
  let* p := getPool in
  setPool (destroyAllocatedAudio (c_url c) (c_groupId c) (c_audio c) p) ;;
  resolve (c_promise c) (mkResult (c_url c) None (Some err)).

(** Truthiness of the optional [groupId] argument. *)
Definition truthyGroup (groupId : option nat) : option nat :=
  match groupId with
  | Some 0 => None
  | g => g
  end.

(** The pool call of [_load]; a pool error is thrown. *)
Definition allocate (url : string) (groupId : option nat) : M nat :=
  let* p := getPool in
  let r := match truthyGroup groupId with
           | Some g => allocateForGroup url g p
           | None => allocateForSource url p
           end in
  setPool (snd r) ;;
  match fst r with
  | inr h => ret (audio h)
  | inl e => throw (PoolFailure e)
  end.

(** The executor that [_load] hands to [new Promise]. *)
Definition executor (url : string) (groupId : option nat) (k : nat) : M unit :=
  let* a := allocate url groupId in
  let c := mkCall url groupId a k in
  addEventListener a "canplaythrough" (OnCanPlayThrough c) ;;
  addEventListener a "error" (OnError c) ;;
  let* b := getBuffering in
  setBuffering (b ++ [mkBuffering url groupId a (OnCanPlayThrough c) (OnError c)]) ;;
  let* el := getAudio a in
  if decide (a_src el = "") then
    setAudio a (mkAudio url 0 (a_currentTime el) (a_listeners el))
  else
    setAudio a (mkAudio (a_src el) (a_readyState el) 0 (a_listeners el)) ;;
    if decide (3 ≤ a_readyState el) then onCanPlayThrough c else ret tt.

(** [_load(url, groupId)]: the promise is created pending, the executor
    runs at once, and an exception of the executor rejects the promise.
    The result is the identity of the promise. *)
Definition _load (url : string) (groupId : option nat) (l : MediaLoader)
  : nat * MediaLoader :=
  let k := nextPromise l in
  let l0 := mkLoader (_audioPool l) (_bufferingAudios l) (_disposed l) (audios l)
                     (<[k := Pending]> (promises l)) (S k) in
  match executor url groupId k l0 with
  | (inr _, l1) => (k, l1)
  | (inl e, l1) => (k, settle k (Rejected e) l1)
  end.

(** Running one registered listener when its event fires. *)
Definition invoke (fn : Listener) (err : string) : M unit :=
  match fn with
  | OnCanPlayThrough c => onCanPlayThrough c
  | OnError c => onError c err
  end.

(** The argument forms of [unload]. *)
Inductive Urls :=
| NoUrls
| OneUrl (url : string)
| ManyUrls (urls : list string).

Definition falsy (urls : Urls) : bool :=
  match urls with
  | NoUrls => true
  | OneUrl url => bool_decide (url = "")
  | ManyUrls _ => false
  end.

(** The local function [removeAudioObjOfUrl] of [unload]. *)
Definition removeAudioObjOfUrl (url : string) : M unit :=
  let* b := getBuffering in
  match List.find (λ a, bool_decide (b_url a = url)) b with
  | Some audioObj => _cleanUp audioObj
  | None => ret tt
  end.

(** [array.forEach(f)] on an array that [f] may shrink while it is
    traversed: the indices below the initial length are visited in order
    and an index that is no longer present is skipped. *)
Fixpoint forEachLive (indices : list nat) (f : BufferingAudio → M unit) : M unit :=
  match indices with
  | [] => ret tt
  | i :: rest =>
      let* b := getBuffering in
      match b !! i with
      | Some obj => f obj
      | None => ret tt
      end ;;
      forEachLive rest f
  end.

(** [array.forEach(f)] on an array that is not modified meanwhile. *)
Fixpoint forEach {A} (xs : list A) (f : A → M unit) : M unit :=
  match xs with
  | [] => ret tt
  | x :: rest => f x ;; forEach rest f
  end.

Definition releaseUrl (url : string) : M unit :=
  let* p := getPool in setPool (releaseForSource url p).

(** [unload(urls)] *)
Definition unload (urls : Urls) : M unit :=
  (if falsy urls then
     let* b := getBuffering in
     forEachLive (seq 0 (length b)) _cleanUp
   else match urls with
        | OneUrl url => removeAudioObjOfUrl url
        | ManyUrls us => forEach us removeAudioObjOfUrl
        | NoUrls => ret tt
        end) ;;
  match urls with
  | NoUrls => throw (TypeError "Cannot read properties of undefined (reading 'forEach')")
  | OneUrl _ => throw (TypeError "urls.forEach is not a function")
  | ManyUrls us => forEach us releaseUrl
  end.

(** [dispose()] *)
Definition dispose : M unit :=
  let* d := isDisposed in
  if d then ret tt else
  let* b := getBuffering in
  forEach b _cleanUp ;;
  let* p := getPool in
  λ l, (inr tt, mkLoader None None true (audios l) (promises l) (nextPromise l)).

(** A loader that has not been disposed: its pool and its buffering list
    are in place. *)
Definition live (l : MediaLoader) : Prop :=
  _disposed l = false ∧ is_Some (_audioPool l) ∧ is_Some (_bufferingAudios l).




(** A loader with one load of [a.mp3] in flight, and one with a second
    load, of [b.mp3], in flight as well. *)
Definition oneInFlight : MediaLoader :=
  snd (_load "a.mp3" None (Loader.create 2)).

Definition twoInFlight : MediaLoader :=
  snd (_load "b.mp3" None oneInFlight).

End Loader.

(** ** Sounds: what the two backends share (BaseBuzz.js) *)

Module BaseBuzz.
Local Open Scope Q_scope.

(** Modelled from the spec: BaseBuzz.js, which declares [BuzzState], is
    not part of the sources. "States: Idle, Loading, Playing, Paused;
    terminal Destroyed." *)
Inductive BuzzState := Idle | Loading | Playing | Paused | Destroyed.

(** What a sound does that an observer can see, in order: an event fired
    with [_fire], an assignment to [_state], a load that was triggered. *)
Inductive Effect :=
| Fired (event : string) (arg : option Q)
| Entered (st : BuzzState)
| LoadTriggered.

(** A timer armed with [setTimeout(this._onEnded, delay)]: the time at
    which it was armed, in seconds, and its delay in milliseconds; a delay
    that is not a finite number is [None]. *)
Record Timer := mkTimer {
  t_armedAt : Q;
  t_delay : option Q
}.

(** An argument passed by the caller: left out, a (finite) number, or a
    value of another type. *)
Inductive JsValue :=
| JsUndefined
| JsNumber (q : Q)
| JsOther.

(** The closures a sound puts on its action queue while it is not loaded. *)
Inductive Action :=
| APlay (sound : option string) (fireEvent : bool)
| ASeek (position : Q).

(** Modelled from the spec: the action queue utility is not part of the
    sources. "One slot per action kind; a later [seek] or [play] request
    can supersede an earlier queued one of the same kind." *)
Fixpoint queueAdd (key : string) (a : Action) (q : list (string * Action))
  : list (string * Action) :=
  match q with
  | [] => [(key, a)]
  | (k, b) :: rest =>
      if decide (k = key) then (k, a) :: rest else (k, b) :: queueAdd key a rest
  end.

(** A looping sound reaching the end of its region in place: between the
    traces [before] and [after] it fires [playend] and [playstart] and
    enters no state other than Playing. *)
Definition loopsInPlace (before after : list Effect) : Prop :=
  ∃ delta, after = before ++ delta ∧
    Fired "playend" None ∈ delta ∧
    Fired "playstart" None ∈ delta ∧
    ∀ st, Entered st ∈ delta → st = Playing.

(** [x / y] on numbers: no finite value when [y] is zero. *)
Definition jsdiv (x y : Q) : option Q :=
  if Qeq_bool y 0 then None else Some (x / y).

(** [x > y] and [x < y] on numbers. *)
Definition Qltb (x y : Q) : bool := negb (Qle_bool y x).

(** Milliseconds left on a timer at time [now]. *)
Definition remaining (now : Q) (t : Timer) : option Q :=
  (λ d, d - (now - t_armedAt t) * 1000) <$> t_delay t.

End BaseBuzz.

(** ** Buffer-backed sounds (BufferBuzz.js) *)

Module BufferBuzz.
Import BaseBuzz.
Local Open Scope Q_scope.

(** The [AudioBufferSourceNode] of a playing sound, as started by
    [start(when, offset, duration)]. *)
Record BufferSourceNode := mkNode {
  n_playbackRate : Q;
  n_loop : bool;
  n_loopStart : Q;
  n_loopEnd : Q;
  n_when : Q;
  n_offset : Q;
  n_duration : Q
}.

Record BufferBuzz := mkBufferBuzz {
  _state : BuzzState;
  _loaded : bool;
  _loop : bool;
  _rate : Q;
  _duration : Q;
  _seek : Q;
  _elapsed : Q;
  _rateSeek : Q;
  _startPos : Q;
  _endPos : Q;
  _startTime : Q;
  _sprite : option (list (string * (Q * Q)));
  _spriteSound : option string;
  _bufferSourceNode : option BufferSourceNode;
  _endTimer : option Timer;
  _actionQueue : list (string * Action);
  trace : list Effect
}.

Definition set_state (v : BuzzState) (s : BufferBuzz) : BufferBuzz :=
  mkBufferBuzz v (_loaded s) (_loop s) (_rate s) (_duration s) (_seek s) (_elapsed s)
    (_rateSeek s) (_startPos s) (_endPos s) (_startTime s) (_sprite s) (_spriteSound s)
    (_bufferSourceNode s) (_endTimer s) (_actionQueue s) (trace s) .

Definition set_rate (v : Q) (s : BufferBuzz) : BufferBuzz :=
  mkBufferBuzz (_state s) (_loaded s) (_loop s) v (_duration s) (_seek s) (_elapsed s)
    (_rateSeek s) (_startPos s) (_endPos s) (_startTime s) (_sprite s) (_spriteSound s)
    (_bufferSourceNode s) (_endTimer s) (_actionQueue s) (trace s) .

Definition set_seek (v : Q) (s : BufferBuzz) : BufferBuzz :=
  mkBufferBuzz (_state s) (_loaded s) (_loop s) (_rate s) (_duration s) v (_elapsed s)
    (_rateSeek s) (_startPos s) (_endPos s) (_startTime s) (_sprite s) (_spriteSound s)
    (_bufferSourceNode s) (_endTimer s) (_actionQueue s) (trace s) .

Definition set_elapsed (v : Q) (s : BufferBuzz) : BufferBuzz :=
  mkBufferBuzz (_state s) (_loaded s) (_loop s) (_rate s) (_duration s) (_seek s) v
    (_rateSeek s) (_startPos s) (_endPos s) (_startTime s) (_sprite s) (_spriteSound s)
    (_bufferSourceNode s) (_endTimer s) (_actionQueue s) (trace s) .

Definition set_rateSeek (v : Q) (s : BufferBuzz) : BufferBuzz :=
  mkBufferBuzz (_state s) (_loaded s) (_loop s) (_rate s) (_duration s) (_seek s)
    (_elapsed s) v (_startPos s) (_endPos s) (_startTime s) (_sprite s) (_spriteSound s)
    (_bufferSourceNode s) (_endTimer s) (_actionQueue s) (trace s) .

Definition set_startPos (v : Q) (s : BufferBuzz) : BufferBuzz :=
  mkBufferBuzz (_state s) (_loaded s) (_loop s) (_rate s) (_duration s) (_seek s)
    (_elapsed s) (_rateSeek s) v (_endPos s) (_startTime s) (_sprite s) (_spriteSound s)
    (_bufferSourceNode s) (_endTimer s) (_actionQueue s) (trace s) .

Definition set_endPos (v : Q) (s : BufferBuzz) : BufferBuzz :=
  mkBufferBuzz (_state s) (_loaded s) (_loop s) (_rate s) (_duration s) (_seek s)
    (_elapsed s) (_rateSeek s) (_startPos s) v (_startTime s) (_sprite s)
    (_spriteSound s) (_bufferSourceNode s) (_endTimer s) (_actionQueue s) (trace s) .

Definition set_startTime (v : Q) (s : BufferBuzz) : BufferBuzz :=
  mkBufferBuzz (_state s) (_loaded s) (_loop s) (_rate s) (_duration s) (_seek s)
    (_elapsed s) (_rateSeek s) (_startPos s) (_endPos s) v (_sprite s) (_spriteSound s)
    (_bufferSourceNode s) (_endTimer s) (_actionQueue s) (trace s) .

Definition set_spriteSound (v : option string) (s : BufferBuzz) : BufferBuzz :=
  mkBufferBuzz (_state s) (_loaded s) (_loop s) (_rate s) (_duration s) (_seek s)
    (_elapsed s) (_rateSeek s) (_startPos s) (_endPos s) (_startTime s) (_sprite s) v
    (_bufferSourceNode s) (_endTimer s) (_actionQueue s) (trace s) .

Definition set_bufferSourceNode (v : option BufferSourceNode) (s : BufferBuzz) : BufferBuzz :=
  mkBufferBuzz (_state s) (_loaded s) (_loop s) (_rate s) (_duration s) (_seek s)
    (_elapsed s) (_rateSeek s) (_startPos s) (_endPos s) (_startTime s) (_sprite s)
    (_spriteSound s) v (_endTimer s) (_actionQueue s) (trace s) .

Definition set_endTimer (v : option Timer) (s : BufferBuzz) : BufferBuzz :=
  mkBufferBuzz (_state s) (_loaded s) (_loop s) (_rate s) (_duration s) (_seek s)
    (_elapsed s) (_rateSeek s) (_startPos s) (_endPos s) (_startTime s) (_sprite s)
    (_spriteSound s) (_bufferSourceNode s) v (_actionQueue s) (trace s) .

Definition set_actionQueue (v : list (string * Action)) (s : BufferBuzz) : BufferBuzz :=
  mkBufferBuzz (_state s) (_loaded s) (_loop s) (_rate s) (_duration s) (_seek s)
    (_elapsed s) (_rateSeek s) (_startPos s) (_endPos s) (_startTime s) (_sprite s)
    (_spriteSound s) (_bufferSourceNode s) (_endTimer s) v (trace s) .

Definition set_trace (v : list Effect) (s : BufferBuzz) : BufferBuzz :=
  mkBufferBuzz (_state s) (_loaded s) (_loop s) (_rate s) (_duration s) (_seek s)
    (_elapsed s) (_rateSeek s) (_startPos s) (_endPos s) (_startTime s) (_sprite s)
    (_spriteSound s) (_bufferSourceNode s) (_endTimer s) (_actionQueue s) v.

(** Modelled from the spec: [isPlaying], [isPaused], [isLoaded] and
    [_fire] belong to BaseBuzz.js, which is not part of the sources. They
    read the current state, respectively the load state, of the sound;
    [_fire] emits the named event. *)
Definition isPlaying (s : BufferBuzz) : bool :=
  match _state s with Playing => true | _ => false end.

Definition isPaused (s : BufferBuzz) : bool :=
  match _state s with Paused => true | _ => false end.

Definition isLoaded (s : BufferBuzz) : bool := _loaded s.

Definition _fire (event : string) (arg : option Q) (s : BufferBuzz) : BufferBuzz :=
  set_trace (trace s ++ [Fired event arg]) s.

(** [this._state = st] *)
Definition enter (st : BuzzState) (s : BufferBuzz) : BufferBuzz :=
  set_trace (trace s ++ [Entered st]) (set_state st s).

(** Modelled from the spec: [load] belongs to BaseBuzz.js. "If not
    loaded, enqueue the play intent and trigger load." Only the fact that
    the load was triggered is kept. *)
Definition load (s : BufferBuzz) : BufferBuzz :=
  set_trace (trace s ++ [LoadTriggered]) s.

(** [_load()]: asks the engine for the buffer; the promise is not used by
    the callers modelled here. *)
Definition _load (s : BufferBuzz) : BufferBuzz :=
  set_trace (trace s ++ [LoadTriggered]) s.

(** [_getTimeVars()] *)
Definition _getTimeVars (s : BufferBuzz) : Q * Q * option Q :=
  let seek := Qmax 0 (if Qltb 0 (_seek s) then _seek s else _startPos s) in
  let duration := _endPos s - _startPos s in
  let timeout := jsdiv (duration * 1000) (_rate s) in
  (seek, duration, timeout).

(** [_playNode(offset, duration)] at context time [now] *)
Definition _playNode (offset duration now : Q) (s : BufferBuzz) : BufferBuzz :=
  set_bufferSourceNode
    (Some (mkNode (_rate s) (_loop s) (_startPos s) (_endPos s) now offset duration)) s.

(** [_cleanNode()] *)
Definition _cleanNode (s : BufferBuzz) : BufferBuzz :=
  match _bufferSourceNode s with
  | None => s
  | Some _ => set_bufferSourceNode None s
  end.

(** [_stopNode()] *)
Definition _stopNode (s : BufferBuzz) : BufferBuzz :=
  match _bufferSourceNode s with
  | None => s
  | Some _ => _cleanNode s
  end.

(** [_clearEndTimer()] *)
Definition _clearEndTimer (s : BufferBuzz) : BufferBuzz :=
  match _endTimer s with
  | None => s
  | Some _ => set_endTimer None s
  end.

(** [_reset()] *)
Definition _reset (s : BufferBuzz) : BufferBuzz :=
  _cleanNode (_stopNode (_clearEndTimer s)).

(** [sound && this._sprite && this._sprite[sound]], for the names the
    sprite defines itself. A name that the sprite does not define but
    that every object inherits ([constructor], [toString], ...) yields the
    inherited value in the source; such names are outside the model. *)
Definition spriteEntry (sound : option string) (s : BufferBuzz) : option (Q * Q) :=
  match sound, _sprite s with
  | Some name, Some sprite =>
      if decide (name = "") then None
      else snd <$> List.find (λ e, bool_decide (fst e = name)) sprite
  | _, _ => None
  end.

(** [_play(sound, fireEvent)] at context time [now]. [buzzer._link(this)]
    connects the sound to the engine's graph and touches none of the
    fields kept here. *)
Definition _play (sound : option string) (fireEvent : bool) (now : Q)
    (s : BufferBuzz) : BufferBuzz :=
  if isPlaying s then s
  else if negb (isLoaded s) then
    load (set_actionQueue (queueAdd "play" (APlay sound fireEvent) (_actionQueue s)) s)
  else
    let prevSound := _spriteSound s in
    let s := set_spriteSound
               (match spriteEntry sound s with Some _ => sound | None => None end) s in
    let s := if negb (isPaused s) && negb (bool_decide (_spriteSound s = prevSound))
             then set_seek 0 s else s in
    let s := match spriteEntry (_spriteSound s) s with
             | Some (b, e) => set_endPos e (set_startPos b s)
             | None => set_endPos (_duration s) (set_startPos 0 s)
             end in
    let '(seek, duration, timeout) := _getTimeVars s in
    let s := _playNode seek duration now s in
    let s := set_startTime now s in
    let s := set_endTimer (Some (mkTimer now timeout)) s in
    let s := enter Playing s in
    if fireEvent then _fire "play" None s else s.

(** [play()] *)
Definition play (now : Q) (s : BufferBuzz) : BufferBuzz := _play None true now s.

(** [_onEnded()], the callback of the end timer, at context time [now] *)
Definition _onEnded (now : Q) (s : BufferBuzz) : BufferBuzz :=
  if _loop s then
    let s := _fire "playend" None s in
    let s := set_seek (_startPos s) s in
    let s := set_rateSeek 0 s in
    let s := set_startTime now s in
    let '(_, duration, _) := _getTimeVars s in
    let s := set_endTimer (Some (mkTimer now (Some duration))) s in
    _fire "playstart" None s
  else
    let s := set_seek 0 s in
    let s := set_rateSeek 0 s in
    let s := _clearEndTimer s in
    let s := _cleanNode s in
    let s := enter Idle s in
    _fire "playend" None s.

(** [seek()] without an argument: the current position. *)
Definition currentSeek (now : Q) (s : BufferBuzz) : Q :=
  let realTime := if isPlaying s then now - _startTime s else 0 in
  let rateElapsed := if Qeq_bool (_rateSeek s) 0 then 0
                     else _rateSeek s - _elapsed s in
  _elapsed s + (rateElapsed + realTime * _rate s).

(** Modelled from the spec: [_pause] belongs to BaseBuzz.js. "[pause()]:
    captures current playback position as elapsed time, stops the backend
    node (without resetting position), clears timer, sets state Paused."
    The timer and the node are those of [_reset]; the [pause] event is
    fired unless the caller passes [false]. *)
Definition _pause (fireEvent : bool) (now : Q) (s : BufferBuzz) : BufferBuzz :=
  let s := set_elapsed (currentSeek now s) s in
  let s := _reset s in
  let s := enter Paused s in
  if fireEvent then _fire "pause" None s else s.

(** [seek(seek)] at context time [now]. Called without an argument it
    returns [currentSeek] and leaves the sound as it is. *)
Definition seek (arg : JsValue) (now : Q) (s : BufferBuzz) : BufferBuzz :=
  match arg with
  | JsUndefined => s
  | JsOther => s
  | JsNumber p =>
      if Qltb p 0 then s
      else if negb (isLoaded s) then
        _load (set_actionQueue (queueAdd "seek" (ASeek p) (_actionQueue s)) s)
      else if Qltb (_duration s) p then s
      else
        let playing := isPlaying s in
        let s := if playing then _pause false now s else s in
        let s := set_elapsed p s in
        let s := _fire "seek" (Some p) s in
        if playing then _play None false now s else s
  end.

(** The result of a method that may throw. *)
Inductive outcome :=
| Returned (s : BufferBuzz)
| Threw (msg : string) (s : BufferBuzz).

(** [rate(rate)] at context time [now]. Called without an argument it
    returns the stored rate and leaves the sound as it is. Writing the
    playback rate of a node that does not exist throws. *)
Definition rate (arg : JsValue) (now : Q) (s : BufferBuzz) : outcome :=
  match arg with
  | JsUndefined => Returned s
  | JsOther => Returned s
  | JsNumber r =>
      if Qltb r 0 || Qltb 5 r then Returned s
      else
        let s := set_rateSeek (currentSeek now s) s in
        let s := set_startTime now s in
        let s := set_rate r s in
        if isPlaying s then
          match _bufferSourceNode s with
          | None => Threw "Cannot read properties of null (reading 'playbackRate')" s
          | Some n =>
              let s := set_bufferSourceNode
                         (Some (mkNode (_rate s) (n_loop n) (n_loopStart n) (n_loopEnd n)
                                       (n_when n) (n_offset n) (n_duration n))) s in
              let s := _clearEndTimer s in
              let '(_, duration, _) := _getTimeVars s in
              let s := set_endTimer
                         (Some (mkTimer now (jsdiv (duration * 1000) (Qabs (_rate s))))) s in
              Returned (_fire "rate" (Some (_rate s)) s)
          end
        else Returned (_fire "rate" (Some (_rate s)) s)
  end.

(** The sound an outcome leaves behind. *)
Definition result (o : outcome) : BufferBuzz :=
  match o with
  | Returned s => s
  | Threw _ s => s
  end.

(** Length of the region being played: its end position minus its start
    position. *)
Definition regionDuration (s : BufferBuzz) : Q := _endPos s - _startPos s.

(** A playing sound has a buffer source node ([_play] creates it before
    it sets the state). *)
Definition wellFormed (s : BufferBuzz) : Prop :=
  isPlaying s = true → is_Some (_bufferSourceNode s).

(** A loaded, idle sound without sprite, as constructed and loaded. *)
Definition loadedSound (duration rate : Q) (loop : bool) : BufferBuzz :=
  mkBufferBuzz Idle true loop rate duration 0 0 0 0 0 0 None None None None [] [].

(** Milliseconds left on the end timer of [s] at time [now]. *)
Definition remainingAt (now : Q) (s : BufferBuzz) : option Q :=
  match _endTimer s with
  | Some t => remaining now t
  | None => None
  end.

(** A sound of ten seconds that started to play at time 0, at rate 1. *)
Definition playingSound : BufferBuzz := play 0 (loadedSound 10 1 false).

End BufferBuzz.

(** ** Streaming sounds (MediaBuzz.js) *)

Module MediaBuzz.
Import BaseBuzz.
Local Open Scope Q_scope.

(** The playback side of the HTML5 audio element of a sound. *)
Record Audio := mkAudio {
  currentTime : Q;
  paused : bool;
  muted : bool;
  volume : Q;
  playbackRate : Q
}.

(** What the sound asks the engine ([buzzer]): whether a media element
    source can be created, and the global volume. *)
Record Engine := mkEngine {
  isMediaSourceAvailable : bool;
  engineVolume : Q
}.

(** [_mediaElementAudioSourceNode] is kept as the fact that the node has
    been created. *)
Record MediaBuzz := mkMediaBuzz {
  _state : BuzzState;
  _loaded : bool;
  _loop : bool;
  _rate : Q;
  _muted : bool;
  _volume : Q;
  _duration : Q;
  _elapsed : Q;
  _startPos : Q;
  _endPos : Q;
  _audio : option Audio;
  _mediaElementAudioSourceNode : bool;
  _endTimer : option Timer;
  _actionQueue : list (string * Action);
  trace : list Effect
}.

Definition set_state (v : BuzzState) (s : MediaBuzz) : MediaBuzz :=
  mkMediaBuzz v (_loaded s) (_loop s) (_rate s) (_muted s) (_volume s) (_duration s)
    (_elapsed s) (_startPos s) (_endPos s) (_audio s) (_mediaElementAudioSourceNode s)
    (_endTimer s) (_actionQueue s) (trace s) .

Definition set_elapsed (v : Q) (s : MediaBuzz) : MediaBuzz :=
  mkMediaBuzz (_state s) (_loaded s) (_loop s) (_rate s) (_muted s) (_volume s)
    (_duration s) v (_startPos s) (_endPos s) (_audio s)
    (_mediaElementAudioSourceNode s) (_endTimer s) (_actionQueue s) (trace s) .

Definition set_audio (v : option Audio) (s : MediaBuzz) : MediaBuzz :=
  mkMediaBuzz (_state s) (_loaded s) (_loop s) (_rate s) (_muted s) (_volume s)
    (_duration s) (_elapsed s) (_startPos s) (_endPos s) v
    (_mediaElementAudioSourceNode s) (_endTimer s) (_actionQueue s) (trace s) .

Definition set_mediaElementAudioSourceNode (v : bool) (s : MediaBuzz) : MediaBuzz :=
  mkMediaBuzz (_state s) (_loaded s) (_loop s) (_rate s) (_muted s) (_volume s)
    (_duration s) (_elapsed s) (_startPos s) (_endPos s) (_audio s) v (_endTimer s)
    (_actionQueue s) (trace s) .

Definition set_endTimer (v : option Timer) (s : MediaBuzz) : MediaBuzz :=
  mkMediaBuzz (_state s) (_loaded s) (_loop s) (_rate s) (_muted s) (_volume s)
    (_duration s) (_elapsed s) (_startPos s) (_endPos s) (_audio s)
    (_mediaElementAudioSourceNode s) v (_actionQueue s) (trace s) .

Definition set_actionQueue (v : list (string * Action)) (s : MediaBuzz) : MediaBuzz :=
  mkMediaBuzz (_state s) (_loaded s) (_loop s) (_rate s) (_muted s) (_volume s)
    (_duration s) (_elapsed s) (_startPos s) (_endPos s) (_audio s)
    (_mediaElementAudioSourceNode s) (_endTimer s) v (trace s) .

Definition set_trace (v : list Effect) (s : MediaBuzz) : MediaBuzz :=
  mkMediaBuzz (_state s) (_loaded s) (_loop s) (_rate s) (_muted s) (_volume s)
    (_duration s) (_elapsed s) (_startPos s) (_endPos s) (_audio s)
    (_mediaElementAudioSourceNode s) (_endTimer s) (_actionQueue s) v.

Inductive outcome :=
| Returned (s : MediaBuzz)
| Threw (msg : string) (s : MediaBuzz).

(** Modelled from the spec: [isPlaying], [isLoaded] and [_fire] belong to
    BaseBuzz.js, which is not part of the sources. *)
Definition isPlaying (s : MediaBuzz) : bool :=
  match _state s with Playing => true | _ => false end.

Definition isLoaded (s : MediaBuzz) : bool := _loaded s.

Definition _fire (event : string) (arg : option Q) (s : MediaBuzz) : MediaBuzz :=
  set_trace (trace s ++ [Fired event arg]) s.

(** [this._state = st] *)
Definition enter (st : BuzzState) (s : MediaBuzz) : MediaBuzz :=
  set_trace (trace s ++ [Entered st]) (set_state st s).

(** Modelled from the spec: [load] belongs to BaseBuzz.js; only the fact
    that the load was triggered is kept. *)
Definition load (s : MediaBuzz) : MediaBuzz :=
  set_trace (trace s ++ [LoadTriggered]) s.

(** Modelled from the spec: the [_getTimeVars] that MediaBuzz.js calls
    belongs to BaseBuzz.js. "Compute the effective start offset (resume
    position or region start) [...] an end-of-region timer for
    [(regionDuration / rate) * 1000] ms." *)
Definition _getTimeVars (s : MediaBuzz) : Q * Q * option Q :=
  let seek := Qmax 0 (if Qltb 0 (_elapsed s) then _elapsed s else _startPos s) in
  let duration := _endPos s - _startPos s in
  let timeout := (λ x, x * 1000) <$> jsdiv duration (_rate s) in
  (seek, duration, timeout).

(** [_stopNode()] *)
Definition _stopNode (s : MediaBuzz) : MediaBuzz :=
  match _audio s with
  | Some a => set_audio (Some (mkAudio (currentTime a) true (muted a) (volume a)
                                       (playbackRate a))) s
  | None => s
  end.

(** Clearing the end timer. *)
Definition _clearEndTimer (s : MediaBuzz) : MediaBuzz :=
  match _endTimer s with
  | None => s
  | Some _ => set_endTimer None s
  end.

(** [_playNode(cb)]: the element is positioned, configured and started,
    then [cb] runs. Without an element the first write throws. *)
Definition _playNode (buzzer : Engine) (cb : MediaBuzz → MediaBuzz) (s : MediaBuzz)
  : outcome :=
  let s := if negb (_mediaElementAudioSourceNode s) && isMediaSourceAvailable buzzer
           then set_mediaElementAudioSourceNode true s else s in
  let '(seek, _, _) := _getTimeVars s in
  match _audio s with
  | None => Threw "Cannot set properties of null (setting 'currentTime')" s
  | Some _ =>
      Returned (cb (set_audio (Some (mkAudio seek false (_muted s)
                                             (engineVolume buzzer * _volume s)
                                             (_rate s))) s))
  end.

(** Modelled from the spec: [play] belongs to BaseBuzz.js. "If already
    Playing, no-op. If not loaded, enqueue the play intent and trigger
    load. Otherwise compute the effective start offset, start the backend
    node, arm an end-of-region timer, set state Playing, emit [play]." *)
Definition play (buzzer : Engine) (now : Q) (s : MediaBuzz) : outcome :=
  if isPlaying s then Returned s
  else if negb (isLoaded s) then
    Returned (load (set_actionQueue (queueAdd "play" (APlay None true) (_actionQueue s)) s))
  else
    _playNode buzzer
      (λ s, let '(_, _, timeout) := _getTimeVars s in
            let s := set_endTimer (Some (mkTimer now timeout)) s in
            let s := enter Playing s in
            _fire "play" None s)
      s.

(** Modelled from the spec: [_stop] belongs to BaseBuzz.js. "[stop()]:
    resets elapsed position to 0, stops and destroys backend node, clears
    timer, sets state Idle." The [stop] event is fired unless the caller
    passes [false]. *)
Definition _stop (fireEvent : bool) (s : MediaBuzz) : MediaBuzz :=
  let s := set_elapsed 0 s in
  let s := _stopNode s in
  let s := _clearEndTimer s in
  let s := enter Idle s in
  if fireEvent then _fire "stop" None s else s.

(** [_onEnded()] at context time [now] *)
Definition _onEnded (buzzer : Engine) (now : Q) (s : MediaBuzz) : outcome :=
  if _loop s then
    let s := _fire "playend" None s in
    play buzzer now (_stop false s)
  else
    let s := _stop false s in
    let s := enter Idle s in
    Returned (_fire "playend" None s).

(** The sound an outcome leaves behind. *)
Definition result (o : outcome) : MediaBuzz :=
  match o with
  | Returned s => s
  | Threw _ s => s
  end.

(** An engine with media element sources, at full volume. *)
Definition anEngine : Engine := mkEngine true 1.

(** A loaded, idle streaming sound of [duration] seconds whose element is
    at rest. *)
Definition loadedSound (duration rate : Q) (loop : bool) : MediaBuzz :=
  mkMediaBuzz Idle true loop rate false 1 duration 0 0 duration
              (Some (mkAudio 0 true false 1 1)) false None [] [].

(** That sound, looping over two seconds, while it plays. *)
Definition playingLoop : MediaBuzz := result (play anEngine 0 (loadedSound 2 1 true)).

End MediaBuzz.

(** ** The engine (Engine.js): setup, stop, suspend and resume *)

Module Engine.
Import Js BaseBuzz.
Local Open Scope Q_scope.

Inductive EngineState :=
| NotReady | Ready | Suspending | Suspended | Resuming | Destroying | Done | NoAudio.

#[global] Instance EngineState_eq_dec : EqDecision EngineState.
Proof. solve_decision. Defined.

(** [AudioContext.state] *)
Inductive ContextState := CtxRunning | CtxSuspended | CtxClosed.

#[global] Instance ContextState_eq_dec : EqDecision ContextState.
Proof. solve_decision. Defined.

(** A promise of [context.suspend()] or [context.resume()] that has not
    settled yet: a lifecycle transition in flight. *)
Inductive Transition := SuspendInFlight | ResumeInFlight.

Record AudioContext := mkContext {
  ctx_state : ContextState;
  ctx_inFlight : list Transition;
  ctx_currentTime : Q
}.

(** The master gain node: its gain and whether it is connected to the
    destination. *)
Record GainNode := mkGain {
  gain : Q;
  connected : bool
}.

(** The closures the engine puts on its queue:
    [() => this.suspend()] and [() => this.resume()]. *)
Inductive Deferred := DSuspend | DResume.

(** What the engine does that an observer can see, in order. *)
Inductive Effect :=
| Fired (event : string)
| Entered (st : EngineState)
| BuzzStopped (buzz : nat)
| SoundStopped (sound : nat).

(** The argument of [setup]: each option is present with the expected
    type or is not; event handlers are named by a number. *)
Record Options := mkOptions {
  o_volume : JsValue;
  o_muted : option bool;
  o_maxNodesPerSource : option nat;
  o_cleanUpInterval : option Q;
  o_autoEnable : option bool;
  o_onstop : option nat;
  o_onmute : option nat;
  o_onvolume : option nat;
  o_onsuspend : option nat;
  o_onresume : option nat;
  o_onerror : option nat;
  o_ondone : option nat
}.

(** [args || {}] *)
Definition noOptions : Options :=
  mkOptions JsUndefined None None None None None None None None None None None.

(** [_bufferLoader] is kept as the fact that the loader has been created;
    [subscriptions] are the handlers registered with the emitter under the
    engine's id; [inputListeners] tells whether the user input listeners
    are on the document. *)
Record Engine := mkEngine {
  _muted : bool;
  _volume : Q;
  _maxNodesPerSource : nat;
  _cleanUpInterval : Q;
  _inactiveTime : Q;
  _autoEnable : bool;
  _intervalId : option Q;
  _isAudioAvailable : bool;
  _state : EngineState;
  _context : option AudioContext;
  _gainNode : option GainNode;
  _queue : option (list (string * string * Deferred));
  _buzzesArray : list nat;
  _soundsArray : list nat;
  _bufferLoader : bool;
  _mediaLoader : option Loader.MediaLoader;
  subscriptions : list (string * nat);
  inputListeners : bool;
  trace : list Effect
}.

Definition set_muted (v : bool) (s : Engine) : Engine :=
  mkEngine v (_volume s) (_maxNodesPerSource s) (_cleanUpInterval s) (_inactiveTime s)
    (_autoEnable s) (_intervalId s) (_isAudioAvailable s) (_state s) (_context s)
    (_gainNode s) (_queue s) (_buzzesArray s) (_soundsArray s) (_bufferLoader s)
    (_mediaLoader s) (subscriptions s) (inputListeners s) (trace s) .

Definition set_volume (v : Q) (s : Engine) : Engine :=
  mkEngine (_muted s) v (_maxNodesPerSource s) (_cleanUpInterval s) (_inactiveTime s)
    (_autoEnable s) (_intervalId s) (_isAudioAvailable s) (_state s) (_context s)
    (_gainNode s) (_queue s) (_buzzesArray s) (_soundsArray s) (_bufferLoader s)
    (_mediaLoader s) (subscriptions s) (inputListeners s) (trace s) .

Definition set_maxNodesPerSource (v : nat) (s : Engine) : Engine :=
  mkEngine (_muted s) (_volume s) v (_cleanUpInterval s) (_inactiveTime s)
    (_autoEnable s) (_intervalId s) (_isAudioAvailable s) (_state s) (_context s)
    (_gainNode s) (_queue s) (_buzzesArray s) (_soundsArray s) (_bufferLoader s)
    (_mediaLoader s) (subscriptions s) (inputListeners s) (trace s) .

Definition set_cleanUpInterval (v : Q) (s : Engine) : Engine :=
  mkEngine (_muted s) (_volume s) (_maxNodesPerSource s) v (_inactiveTime s)
    (_autoEnable s) (_intervalId s) (_isAudioAvailable s) (_state s) (_context s)
    (_gainNode s) (_queue s) (_buzzesArray s) (_soundsArray s) (_bufferLoader s)
    (_mediaLoader s) (subscriptions s) (inputListeners s) (trace s) .

Definition set_autoEnable (v : bool) (s : Engine) : Engine :=
  mkEngine (_muted s) (_volume s) (_maxNodesPerSource s) (_cleanUpInterval s)
    (_inactiveTime s) v (_intervalId s) (_isAudioAvailable s) (_state s) (_context s)
    (_gainNode s) (_queue s) (_buzzesArray s) (_soundsArray s) (_bufferLoader s)
    (_mediaLoader s) (subscriptions s) (inputListeners s) (trace s) .

Definition set_intervalId (v : option Q) (s : Engine) : Engine :=
  mkEngine (_muted s) (_volume s) (_maxNodesPerSource s) (_cleanUpInterval s)
    (_inactiveTime s) (_autoEnable s) v (_isAudioAvailable s) (_state s) (_context s)
    (_gainNode s) (_queue s) (_buzzesArray s) (_soundsArray s) (_bufferLoader s)
    (_mediaLoader s) (subscriptions s) (inputListeners s) (trace s) .

Definition set_isAudioAvailable (v : bool) (s : Engine) : Engine :=
  mkEngine (_muted s) (_volume s) (_maxNodesPerSource s) (_cleanUpInterval s)
    (_inactiveTime s) (_autoEnable s) (_intervalId s) v (_state s) (_context s)
    (_gainNode s) (_queue s) (_buzzesArray s) (_soundsArray s) (_bufferLoader s)
    (_mediaLoader s) (subscriptions s) (inputListeners s) (trace s) .

Definition set_state (v : EngineState) (s : Engine) : Engine :=
  mkEngine (_muted s) (_volume s) (_maxNodesPerSource s) (_cleanUpInterval s)
    (_inactiveTime s) (_autoEnable s) (_intervalId s) (_isAudioAvailable s) v
    (_context s) (_gainNode s) (_queue s) (_buzzesArray s) (_soundsArray s)
    (_bufferLoader s) (_mediaLoader s) (subscriptions s) (inputListeners s) (trace s) .

Definition set_context (v : option AudioContext) (s : Engine) : Engine :=
  mkEngine (_muted s) (_volume s) (_maxNodesPerSource s) (_cleanUpInterval s)
    (_inactiveTime s) (_autoEnable s) (_intervalId s) (_isAudioAvailable s) (_state s) v
    (_gainNode s) (_queue s) (_buzzesArray s) (_soundsArray s) (_bufferLoader s)
    (_mediaLoader s) (subscriptions s) (inputListeners s) (trace s) .

Definition set_gainNode (v : option GainNode) (s : Engine) : Engine :=
  mkEngine (_muted s) (_volume s) (_maxNodesPerSource s) (_cleanUpInterval s)
    (_inactiveTime s) (_autoEnable s) (_intervalId s) (_isAudioAvailable s) (_state s)
    (_context s) v (_queue s) (_buzzesArray s) (_soundsArray s) (_bufferLoader s)
    (_mediaLoader s) (subscriptions s) (inputListeners s) (trace s) .

Definition set_queue (v : option (list (string * string * Deferred))) (s : Engine) : Engine :=
  mkEngine (_muted s) (_volume s) (_maxNodesPerSource s) (_cleanUpInterval s)
    (_inactiveTime s) (_autoEnable s) (_intervalId s) (_isAudioAvailable s) (_state s)
    (_context s) (_gainNode s) v (_buzzesArray s) (_soundsArray s) (_bufferLoader s)
    (_mediaLoader s) (subscriptions s) (inputListeners s) (trace s) .

Definition set_bufferLoader (v : bool) (s : Engine) : Engine :=
  mkEngine (_muted s) (_volume s) (_maxNodesPerSource s) (_cleanUpInterval s)
    (_inactiveTime s) (_autoEnable s) (_intervalId s) (_isAudioAvailable s) (_state s)
    (_context s) (_gainNode s) (_queue s) (_buzzesArray s) (_soundsArray s) v
    (_mediaLoader s) (subscriptions s) (inputListeners s) (trace s) .

Definition set_mediaLoader (v : option Loader.MediaLoader) (s : Engine) : Engine :=
  mkEngine (_muted s) (_volume s) (_maxNodesPerSource s) (_cleanUpInterval s)
    (_inactiveTime s) (_autoEnable s) (_intervalId s) (_isAudioAvailable s) (_state s)
    (_context s) (_gainNode s) (_queue s) (_buzzesArray s) (_soundsArray s)
    (_bufferLoader s) v (subscriptions s) (inputListeners s) (trace s) .

Definition set_subscriptions (v : list (string * nat)) (s : Engine) : Engine :=
  mkEngine (_muted s) (_volume s) (_maxNodesPerSource s) (_cleanUpInterval s)
    (_inactiveTime s) (_autoEnable s) (_intervalId s) (_isAudioAvailable s) (_state s)
    (_context s) (_gainNode s) (_queue s) (_buzzesArray s) (_soundsArray s)
    (_bufferLoader s) (_mediaLoader s) v (inputListeners s) (trace s) .

Definition set_inputListeners (v : bool) (s : Engine) : Engine :=
  mkEngine (_muted s) (_volume s) (_maxNodesPerSource s) (_cleanUpInterval s)
    (_inactiveTime s) (_autoEnable s) (_intervalId s) (_isAudioAvailable s) (_state s)
    (_context s) (_gainNode s) (_queue s) (_buzzesArray s) (_soundsArray s)
    (_bufferLoader s) (_mediaLoader s) (subscriptions s) v (trace s) .

Definition set_trace (v : list Effect) (s : Engine) : Engine :=
  mkEngine (_muted s) (_volume s) (_maxNodesPerSource s) (_cleanUpInterval s)
    (_inactiveTime s) (_autoEnable s) (_intervalId s) (_isAudioAvailable s) (_state s)
    (_context s) (_gainNode s) (_queue s) (_buzzesArray s) (_soundsArray s)
    (_bufferLoader s) (_mediaLoader s) (subscriptions s) (inputListeners s) v.

(** [new Engine()] *)
Definition newEngine : Engine :=
  mkEngine false 1 10 5 2 true None false NotReady None None (Some []) [] []
           false None [] false [].

(** [_fire(eventName)] *)
Definition _fire (event : string) (e : Engine) : Engine :=
  set_trace (trace e ++ [Fired event]) e.

(** [this._state = st] *)
Definition enter (st : EngineState) (e : Engine) : Engine :=
  set_trace (trace e ++ [Entered st]) (set_state st e).

(** [this.on(eventName, handler)] when the option is a function *)
Definition subscribe (event : string) (handler : option nat) (e : Engine) : Engine :=
  match handler with
  | Some h => set_subscriptions (subscriptions e ++ [(event, h)]) e
  | None => e
  end.

(** [setup(args)], on a platform where [utility.getContext()] returns
    [platform]. *)
Definition setup (args : option Options) (platform : option AudioContext)
    (e : Engine) : Engine :=
  if decide (_state e ≠ NotReady) then e
  else
    let e := set_context platform e in
    let e := set_isAudioAvailable (bool_decide (_context e ≠ None)) e in
    match _context e with
    | None => _fire "error" (enter NoAudio e)
    | Some ctx =>
        let o := default noOptions args in
        let e := match o_volume o with
                 | JsNumber v => if Qle_bool 0 v && Qle_bool v 1 then set_volume v e else e
                 | _ => e
                 end in
        let e := match o_muted o with Some m => set_muted m e | None => e end in
        let e := match o_maxNodesPerSource o with
                 | Some n => set_maxNodesPerSource n e | None => e end in
        let e := match o_cleanUpInterval o with
                 | Some i => set_cleanUpInterval i e | None => e end in
        let e := match o_autoEnable o with Some a => set_autoEnable a e | None => e end in
        let e := subscribe "stop" (o_onstop o) e in
        let e := subscribe "mute" (o_onmute o) e in
        let e := subscribe "volume" (o_onvolume o) e in
        let e := subscribe "suspend" (o_onsuspend o) e in
        let e := subscribe "resume" (o_onresume o) e in
        let e := subscribe "error" (o_onerror o) e in
        let e := subscribe "done" (o_ondone o) e in
        let e := set_bufferLoader true e in
        let e := set_mediaLoader (Some (Loader.create (_maxNodesPerSource e))) e in
        let e := if _autoEnable e && bool_decide (ctx_state ctx = CtxSuspended)
                 then set_inputListeners true e else e in
        let e := set_gainNode (Some (mkGain (if _muted e then 0 else _volume e) true)) e in
        let e := set_intervalId (Some (_cleanUpInterval e * 60 * 1000)) e in
        enter (if bool_decide (ctx_state ctx ≠ CtxSuspended) then Ready else Suspended) e
    end.

Abbreviation M := (Js.M Engine).

Definition modify (f : Engine → Engine) : M unit := λ e, (inr tt, f e).

Definition getState : M EngineState := λ e, (inr (_state e), e).

(** Reading [this._queue] / [this._context] to call a method on it. *)
Definition getQueue : M (list (string * string * Deferred)) :=
  λ e, match _queue e with
       | Some q => (inr q, e)
       | None => (inl (TypeError "Cannot read properties of null"), e)
       end.

Definition getContext : M AudioContext :=
  λ e, match _context e with
       | Some c => (inr c, e)
       | None => (inl (TypeError "Cannot read properties of null"), e)
       end.

(** Modelled from the spec: the action queue utility (Queue.js) is not
    part of the sources. "[add(phase, key, fn)], [run(phase)]: supports
    deferred-until-phase execution used by suspend/resume ordering"; an
    action added under a key that is taken replaces the earlier one, and
    [run] takes the actions of the phase off the queue and runs them in
    the order in which they were added. *)
Fixpoint queueAdd (phase key : string) (d : Deferred)
    (q : list (string * string * Deferred)) : list (string * string * Deferred) :=
  match q with
  | [] => [(phase, key, d)]
  | (p, k, d') :: rest =>
      if decide (p = phase ∧ k = key) then (p, k, d) :: rest
      else (p, k, d') :: queueAdd phase key d rest
  end.

Definition inPhase (phase : string) (x : string * string * Deferred) : bool :=
  bool_decide (fst (fst x) = phase).

(** [this._queue.add(phase, key, fn)] *)
Definition add (phase key : string) (d : Deferred) : M unit :=
  let* q := getQueue in
  modify (set_queue (Some (queueAdd phase key d q))).

(** [context.suspend()] / [context.resume()]: the returned promise is in
    flight until the context settles it. *)
Definition request (t : Transition) : M unit :=
  let* c := getContext in
  modify (set_context (Some (mkContext (ctx_state c) (ctx_inFlight c ++ [t])
                                       (ctx_currentTime c)))).

(** [stop(id)] *)
Definition stop (id : option nat) : M unit :=
  match id with
  | Some i =>
      modify (λ e, if bool_decide (i ∈ _soundsArray e)
                   then set_trace (trace e ++ [SoundStopped i]) e else e)
  | None =>
      modify (λ e, set_trace (trace e ++ (BuzzStopped <$> _buzzesArray e)) e) ;;
      modify (_fire "stop")
  end.

(** [suspend()] up to the call of [context.suspend()]; what is chained
    with [then] is [onSuspended]. *)
Definition suspend : M unit :=
  let* st := getState in
  if decide (st = Resuming) then add "after-resume" "suspend" DSuspend
  else if decide (st ≠ Ready) then ret tt
  else
    stop None ;;
    modify (enter Suspending) ;;
    request SuspendInFlight.

(** [resume()] up to the call of [context.resume()]; what is chained with
    [then] is [onResumed]. *)
Definition resume : M unit :=
  let* st := getState in
  if decide (st = Suspending) then add "after-suspend" "resume" DResume
  else if decide (st ≠ Suspended) then ret tt
  else
    modify (enter Resuming) ;;
    request ResumeInFlight.

Definition runDeferred (d : Deferred) : M unit :=
  match d with
  | DSuspend => suspend
  | DResume => resume
  end.

Fixpoint runAll (ds : list Deferred) : M unit :=
  match ds with
  | [] => ret tt
  | d :: rest => runDeferred d ;; runAll rest
  end.

(** [this._queue.run(phase)] *)
Definition run (phase : string) : M unit :=
  let* q := getQueue in
  modify (set_queue (Some (List.filter (λ x, negb (inPhase phase x)) q))) ;;
  runAll (List.map snd (List.filter (inPhase phase) q)).

(** The callback chained to [context.suspend()]. *)
Definition onSuspended : M unit :=
  modify (enter Suspended) ;;
  run "after-suspend" ;;
  modify (_fire "suspend").

(** The callback chained to [context.resume()]. *)
Definition onResumed : M unit :=
  modify (enter Ready) ;;
  run "after-resume" ;;
  modify (_fire "resume").

(** The audio context settles the transition that has been in flight the
    longest, and the callback chained to its promise runs. Nothing
    happens when no transition is in flight. *)
Definition settle : M unit :=
  λ e, match _context e with
       | Some (mkContext st (t :: rest) now) =>
           match t with
           | SuspendInFlight =>
               onSuspended (set_context (Some (mkContext CtxSuspended rest now)) e)
           | ResumeInFlight =>
               onResumed (set_context (Some (mkContext CtxRunning rest now)) e)
           end
       | _ => (inr tt, e)
       end.

(** What can happen to the engine from outside. *)
Inductive Call := CallSuspend | CallResume | CallStop | ContextSettles.

Definition perform (c : Call) : M unit :=
  match c with
  | CallSuspend => suspend
  | CallResume => resume
  | CallStop => stop None
  | ContextSettles => settle
  end.

(** A sequence of calls; a call that throws leaves the engine as it was
    when the exception was raised. *)
Fixpoint performAll (cs : list Call) (e : Engine) : Engine :=
  match cs with
  | [] => e
  | c :: rest => performAll rest (snd (perform c e))
  end.

(** The transitions in flight. *)
Definition inFlight (e : Engine) : list Transition :=
  match _context e with
  | Some c => ctx_inFlight c
  | None => []
  end.

(** The engine state, the transitions in flight and the queue agree:
    while Suspending one suspension is in flight and the queue holds at
    most a resumption for after it; while Resuming one resumption is in
    flight and the queue holds at most a suspension for after it;
    otherwise nothing is in flight and the queue is empty. The context
    exists in all four of these states. *)
Definition consistent (e : Engine) : Prop :=
  match _state e with
  | Suspending =>
      is_Some (_context e) ∧ inFlight e = [SuspendInFlight] ∧
      (_queue e = Some [] ∨ _queue e = Some [("after-suspend", "resume", DResume)])
  | Resuming =>
      is_Some (_context e) ∧ inFlight e = [ResumeInFlight] ∧
      (_queue e = Some [] ∨ _queue e = Some [("after-resume", "suspend", DSuspend)])
  | Ready | Suspended =>
      is_Some (_context e) ∧ inFlight e = [] ∧ _queue e = Some []
  | _ => inFlight e = [] ∧ _queue e = Some []
  end.

(** The engine [e] with another state, context, queue and trace. *)
Definition rebuilt (e : Engine) (st : EngineState) (ctx : option AudioContext)
    (q : option (list (string * string * Deferred))) (tr : list Effect) : Engine :=
  mkEngine (_muted e) (_volume e) (_maxNodesPerSource e) (_cleanUpInterval e)
           (_inactiveTime e) (_autoEnable e) (_intervalId e) (_isAudioAvailable e)
           st ctx (_gainNode e) q (_buzzesArray e) (_soundsArray e)
           (_bufferLoader e) (_mediaLoader e) (subscriptions e) (inputListeners e) tr.

(** The trace [tr] after [stop()]: every buzz is stopped, then the [stop]
    event is fired. *)
Definition stopped (e : Engine) (tr : list Effect) : list Effect :=
  (tr ++ (BuzzStopped <$> _buzzesArray e)) ++ [Fired "stop"].

(** The context is [c] and the queue is empty, as [setup] finds them on a
    new engine. *)
Definition sameContextAndQueue (c : AudioContext) (e : Engine) : Prop :=
  _context e = Some c ∧ _queue e = Some [].

(** An engine set up on a running context, with two buzzes. *)
Definition readyEngine : Engine :=
  mkEngine false 1 10 5 2 true (Some 300000) true Ready
           (Some (mkContext CtxRunning [] 0)) (Some (mkGain 1 true)) (Some [])
           [7; 8]%nat [] true (Some (Loader.create 10)) [] false [Entered Ready].

(** That engine while the resumption of its context is in flight. *)
Definition resumingEngine : Engine :=
  mkEngine false 1 10 5 2 true (Some 300000) true Resuming
           (Some (mkContext CtxSuspended [ResumeInFlight] 0)) (Some (mkGain 1 true))
           (Some []) [7; 8]%nat [] true (Some (Loader.create 10)) [] false
           [Entered Suspended; Entered Resuming].

End Engine.
(** ** The engine: volume, mute and the registry of buzzes *)

Module EngineControls.
Import Js BaseBuzz Engine.
Local Open Scope Q_scope.

(** Reading [this._gainNode] to call a method on it. *)
Definition getGainNode : M GainNode :=
  λ e, match _gainNode e with
       | Some g => (inr g, e)
       | None => (inl (TypeError "Cannot read properties of null"), e)
       end.

(** [this._gainNode.gain.setValueAtTime(v, this._context.currentTime)] *)
Definition setGain (v : Q) : M unit :=
  let* g := getGainNode in
  let* c := getContext in
  modify (set_gainNode (Some (mkGain v (connected g)))).

(** [mute()], called without a sound id. (With an id the call goes to
    the sound of that id; Sound.js is not part of the sources.) *)
Definition mute : M unit :=
  λ e, if _muted e then (inr tt, e)
       else (setGain 0 ;;
             modify (set_muted true) ;;
             modify (_fire "mute")) e.

(** [unmute()], called without a sound id. *)
Definition unmute : M unit :=
  λ e, if negb (_muted e) then (inr tt, e)
       else (setGain (_volume e) ;;
             modify (set_muted false) ;;
             modify (_fire "mute")) e.

(** [volume(vol)]. Called without an argument it returns the volume and
    leaves the engine as it is. *)
Definition volume (vol : JsValue) : M unit :=
  match vol with
  | JsUndefined => ret tt
  | JsOther => ret tt
  | JsNumber v =>
      if Qltb v 0 || Qltb 1 v then ret tt
      else
        λ e, (setGain (if _muted e then 0 else v) ;;
              modify (set_volume v) ;;
              modify (_fire "volume")) e
  end.

(** [this._buzzesArray = v] *)
Definition set_buzzesArray (v : list nat) (s : Engine) : Engine :=
  mkEngine (_muted s) (_volume s) (_maxNodesPerSource s) (_cleanUpInterval s)
           (_inactiveTime s) (_autoEnable s) (_intervalId s) (_isAudioAvailable s)
           (_state s) (_context s) (_gainNode s) (_queue s) v (_soundsArray s)
           (_bufferLoader s) (_mediaLoader s) (subscriptions s) (inputListeners s)
           (trace s).

(** [add(buzz)]; a buzz is named by its id. *)
Definition add (buzz : nat) (e : Engine) : Engine :=
  if bool_decide (buzz ∈ _buzzesArray e) then e
  else set_buzzesArray (_buzzesArray e ++ [buzz]) e.

(** [array.indexOf(x)], [None] standing for -1. *)
Fixpoint indexOf (x : nat) (l : list nat) : option nat :=
  match l with
  | [] => None
  | y :: rest => if decide (y = x) then Some 0%nat else S <$> indexOf x rest
  end.

(** [remove(buzz)]: [splice(indexOf(buzz), 1)], where an index of -1
    designates the last element. *)
Definition remove (buzz : nat) (e : Engine) : Engine :=
  set_buzzesArray
    (match indexOf buzz (_buzzesArray e) with
     | Some i => delete i (_buzzesArray e)
     | None => removelast (_buzzesArray e)
     end) e.

(** [_resumeAndRemoveListeners()], the handler of the user input events:
    it resumes and calls [document.addEventListener] for every event name
    again. *)
Definition _resumeAndRemoveListeners : M unit :=
  resume ;;
  modify (set_inputListeners true).

(** The calls that touch the master gain. *)
Inductive Control :=
| Mute
| Unmute
| Volume (vol : JsValue).

Definition control (c : Control) : M unit :=
  match c with
  | Mute => mute
  | Unmute => unmute
  | Volume vol => volume vol
  end.

Fixpoint controlAll (cs : list Control) (e : Engine) : Engine :=
  match cs with
  | [] => e
  | c :: rest => controlAll rest (snd (control c e))
  end.

(** The master gain is silent while the engine is muted and carries the
    volume otherwise. *)
Definition gainFollows (e : Engine) : Prop :=
  ∀ g, _gainNode e = Some g → gain g = if _muted e then 0 else _volume e.

(** What [setup] keeps of the engine [e0] while it reads the options and
    builds the graph on the context [c]. *)
Definition keptBySetup (e0 : Engine) (c : AudioContext) (e : Engine) : Prop :=
  _context e = Some c ∧ _queue e = _queue e0 ∧ trace e = trace e0 ∧
  _buzzesArray e = _buzzesArray e0 ∧ _soundsArray e = _soundsArray e0.

(** The state in which [setup] leaves the engine on the context [c]. *)
Definition stateOn (c : AudioContext) : EngineState :=
  if bool_decide (ctx_state c ≠ CtxSuspended) then Ready else Suspended.

(** [e'] is [e0] set up on the context [c]. *)
Definition setUpOn (e0 : Engine) (c : AudioContext) (e' : Engine) : Prop :=
  ∃ e, e' = enter (stateOn c) e ∧ keptBySetup e0 c e.

(** The master gain node exists, is connected, and is silent if the engine
    is muted and carries the volume if not. *)
Definition graphBuilt (e : Engine) : Prop :=
  ∃ g, _gainNode e = Some g ∧ connected g = true ∧
       gain g = if _muted e then 0%Q else _volume e.

(** The properties of [e] are those of [e0] with the well-typed options of
    [o] written over them: a volume from 0 to 1, the mute flag, the
    number of nodes per source, the sweep interval and the auto-enable
    flag. *)
Definition optionsRead (e0 : Engine) (o : Options) (e : Engine) : Prop :=
  _volume e = match o_volume o with
              | JsNumber v => if Qle_bool 0 v && Qle_bool v 1 then v else _volume e0
              | _ => _volume e0
              end ∧
  _muted e = default (_muted e0) (o_muted o) ∧
  _maxNodesPerSource e = default (_maxNodesPerSource e0) (o_maxNodesPerSource o) ∧
  _cleanUpInterval e = default (_cleanUpInterval e0) (o_cleanUpInterval o) ∧
  _autoEnable e = default (_autoEnable e0) (o_autoEnable o).

End EngineControls.

(** ** The streaming loader: releasing a group *)

Module LoaderRelease.
Import Pool Js Loader.

(** Modelled from the spec: Html5AudioPool.js is not part of the sources.
    "[releaseForGroup(url, groupId, freeOnly=false)]: if [freeOnly] is
    false, moves every handle in [allocated[groupId]] back to
    [unallocated] (clearing their [soundId]) and removes the group key. If
    [freeOnly] is true, only handles with [soundId] unset are moved back;
    bound handles remain allocated to the group." *)
Definition poolReleaseForGroup (url : string) (groupId : nat) (freeOnly : bool)
    (p : Html5AudioPool) : Html5AudioPool :=
  match _resourceNodesMap p !! url with
  | None => p
  | Some e =>
      let group := default [] (allocated e !! groupId) in
      let moved := if freeOnly
                   then List.filter (λ h, bool_decide (soundId h = None)) group
                   else group in
      mkPool (_maxNodesPerSource p)
             (<[url := mkEntry
                  (unallocated e ++ ((λ h, mkHandle (audio h) None) <$> moved))
                  (if freeOnly
                   then alter (List.filter (λ h, bool_decide (soundId h ≠ None)))
                              groupId (allocated e)
                   else delete groupId (allocated e))]>
                (_resourceNodesMap p))
             (_nextAudio p)
  end.

(** [releaseForGroup(url, groupId, free)] *)
Definition releaseForGroup (url : string) (groupId : nat) (free : bool) : M unit :=
  let* b := getBuffering in
  forEach (List.filter (λ a, bool_decide (b_groupId a = Some groupId)) b) _cleanUp ;;
  let* p := getPool in
  setPool (poolReleaseForGroup url groupId free p).

(** The elements of a list at the odd indices: the second, the fourth and
    so on. *)
Fixpoint oddIndexed {A} (l : list A) : list A :=
  match l with
  | _ :: y :: rest => y :: oddIndexed rest
  | _ => []
  end.

(** A load of [a.mp3] for the group 1 in flight beside [twoInFlight]. *)
Definition threeInFlight : MediaLoader :=
  snd (_load "a.mp3" (Some 1) twoInFlight).

End LoaderRelease.

(** ** Buffer-backed sounds: sprites and sequences of calls *)

Module BufferBuzzCalls.
Import BaseBuzz BufferBuzz.
Local Open Scope Q_scope.

(** [playSprite(sound)] at context time [now] *)
Definition playSprite (sound : string) (now : Q) (s : BufferBuzz) : BufferBuzz :=
  _play (Some sound) true now s.

(** What can happen to a sound: a call of [play], [playSprite], [seek] or
    [rate], or its end timer firing. *)
Inductive Call :=
| Play
| PlaySprite (sound : string)
| Seek (arg : JsValue)
| Rate (arg : JsValue)
| TimerFires.

(** The sound after the call [c] at context time [now]; after a [rate]
    that throws, the sound as the exception left it. *)
Definition perform (c : Call) (now : Q) (s : BufferBuzz) : BufferBuzz :=
  match c with
  | Play => play now s
  | PlaySprite sound => playSprite sound now s
  | Seek arg => seek arg now s
  | Rate arg => result (rate arg now s)
  | TimerFires => _onEnded now s
  end.

(** The sound after a sequence of calls, each at its context time. *)
Fixpoint performAll (cs : list (Q * Call)) (s : BufferBuzz) : BufferBuzz :=
  match cs with
  | [] => s
  | (now, c) :: rest => performAll rest (perform c now s)
  end.

(** The property names that every object inherits from
    [Object.prototype]. For such a name [this._sprite[sound]] yields the
    inherited value where the sprite does not define the name itself;
    [spriteEntry] looks at the names the sprite defines only. *)
Definition objectPrototypeNames : list string :=
  ["constructor"; "hasOwnProperty"; "isPrototypeOf"; "propertyIsEnumerable";
   "toLocaleString"; "toString"; "valueOf"; "__proto__"; "__defineGetter__";
   "__defineSetter__"; "__lookupGetter__"; "__lookupSetter__"].

Definition plainName (name : string) : bool :=
  negb (existsb (String.eqb name) objectPrototypeNames).

(** The duration is not negative and every region of the sprite begins at
    0 or later and does not end before it begins: what
    [AudioBufferSourceNode.start] needs of the offset and the duration it
    is given. *)
Definition orderedRegions (s : BufferBuzz) : bool :=
  Qle_bool 0 (_duration s) &&
  match _sprite s with
  | None => true
  | Some sprite => forallb (λ '(_, (b, e)), Qle_bool 0 b && Qle_bool b e) sprite
  end.

(** The calls [cs] on the sound [s] stay where the embedding follows the
    program: the regions are ordered and no sprite sound is asked for
    under an inherited name. *)
Definition withinModel (cs : list (Q * Call)) (s : BufferBuzz) : bool :=
  orderedRegions s &&
  forallb (λ '(_, c), match c with
                      | PlaySprite name => plainName name
                      | _ => true
                      end) cs.

(** A loaded, idle sound of ten seconds with the sprite sounds [intro]
    (from 0 to 2) and [beep] (from 4 to 5). *)
Definition spriteSound : BufferBuzz :=
  mkBufferBuzz Idle true false 1 10 0 0 0 0 0 0
               (Some [("intro", (0, 2)); ("beep", (4, 5))]) None None None [] [].

End BufferBuzzCalls.

(** ** The engine and the streaming loader: unloading media *)

Module EngineMedia.
Import Js Loader Engine.

(** Reading [this._mediaLoader] to call a method on it. *)
Definition getMediaLoader : Js.M Engine MediaLoader :=
  λ e, match _mediaLoader e with
       | Some l => (inr l, e)
       | None => (inl (TypeError "Cannot read properties of null"), e)
       end.

(** A method of the media loader called on [this._mediaLoader]: the
    loader is mutated in place and an exception passes through. *)
Definition onMediaLoader {A} (m : Js.M MediaLoader A) : Js.M Engine A :=
  let* l := getMediaLoader in
  λ e, (fst (m l), set_mediaLoader (Some (snd (m l))) e).

(** [unloadMedia(urls)] *)
Definition unloadMedia (urls : Urls) : Js.M Engine unit :=
  if falsy urls then onMediaLoader (unload NoUrls)
  else onMediaLoader (unload urls).

End EngineMedia.


(** ** Properties of the streaming node pool *)

Module PoolSpec.
Import Pool.

Lemma liveHandles_create (maxNodes : nat) (url : string) :
  liveHandles url (create maxNodes) = 0.
Proof. unfold liveHandles, entryOf, create; simpl. by rewrite lookup_empty. Qed.

Lemma bounded_create (maxNodes : nat) : bounded (create maxNodes).
Proof. intros url. rewrite liveHandles_create. simpl. lia. Qed.

Lemma entryOf_insert_eq m (M : gmap string PoolEntry) n (url : string) (e : PoolEntry) :
  entryOf url (mkPool m (<[url := e]> M) n) = e.
Proof. unfold entryOf; simpl. by rewrite lookup_insert_eq. Qed.

Lemma entryOf_insert_ne m (M : gmap string PoolEntry) n (url url' : string) (e : PoolEntry) :
  url ≠ url' →
  entryOf url' (mkPool m (<[url := e]> M) n) = default emptyEntry (M !! url').
Proof. intros Hne. unfold entryOf; simpl. by rewrite lookup_insert_ne. Qed.

Lemma max_allocateForSource (url : string) (p : Html5AudioPool) :
  _maxNodesPerSource (snd (allocateForSource url p)) = _maxNodesPerSource p.
Proof. unfold allocateForSource. by case_decide. Qed.

Lemma max_allocateAll (urls : list string) (p : Html5AudioPool) :
  _maxNodesPerSource (allocateAll urls p) = _maxNodesPerSource p.
Proof.
  revert p. induction urls as [|url rest IH]; intros p; simpl; [done|].
  by rewrite IH, max_allocateForSource.
Qed.

(** A successful call adds exactly one handle, to [unallocated]. *)
Lemma allocateForSource_below (url : string) (p : Html5AudioPool) :
  liveHandles url p < _maxNodesPerSource p →
  ∃ h, fst (allocateForSource url p) = inr h ∧
       audio h = _nextAudio p ∧
       unallocated (entryOf url (snd (allocateForSource url p)))
         = unallocated (entryOf url p) ++ [h] ∧
       liveHandles url (snd (allocateForSource url p)) = S (liveHandles url p).
Proof.
  intros Hlt. unfold allocateForSource, liveHandles in *.
  case_decide; [|lia]. eexists; split; [done|]. split; [done|].
  simpl. rewrite !entryOf_insert_eq; simpl.
  split; [done|]. unfold totalHandles; simpl. rewrite length_app; simpl. lia.
Qed.

(** A call at the maximum throws and creates nothing. *)
Lemma allocateForSource_at_max (url : string) (p : Html5AudioPool) :
  _maxNodesPerSource p ≤ liveHandles url p →
  fst (allocateForSource url p) = inl (PoolExhausted url) ∧
  liveHandles url (snd (allocateForSource url p)) = liveHandles url p ∧
  _nextAudio (snd (allocateForSource url p)) = _nextAudio p.
Proof.
  intros Hge. unfold allocateForSource, liveHandles in *.
  case_decide; [lia|]. split; [done|]. split; [|done].
  simpl. by rewrite entryOf_insert_eq.
Qed.

(** Other resources are not affected. *)
Lemma allocateForSource_other (url url' : string) (p : Html5AudioPool) :
  url ≠ url' →
  liveHandles url' (snd (allocateForSource url p)) = liveHandles url' p.
Proof.
  intros Hne. unfold allocateForSource, liveHandles.
  case_decide; simpl; by rewrite entryOf_insert_ne.
Qed.

Lemma bounded_allocateForSource (url : string) (p : Html5AudioPool) :
  bounded p → bounded (snd (allocateForSource url p)).
Proof.
  intros Hb url'. rewrite max_allocateForSource.
  destruct (decide (url = url')) as [<-|Hne].
  - destruct (decide (liveHandles url p < _maxNodesPerSource p)) as [Hlt|Hge].
    + destruct (allocateForSource_below url p Hlt) as (h & _ & _ & _ & ->). lia.
    + destruct (allocateForSource_at_max url p) as (_ & -> & _); [lia|]. apply Hb.
  - rewrite allocateForSource_other by done. apply Hb.
Qed.

Lemma bounded_allocateAll (urls : list string) (p : Html5AudioPool) :
  bounded p → bounded (allocateAll urls p).
Proof.
  revert p. induction urls as [|url rest IH]; intros p Hb; simpl; [done|].
  by apply IH, bounded_allocateForSource.
Qed.

(** C1. Whatever sequence of [allocateForSource] calls is made on a pool
    that respects the maximum (a fresh pool does), no resource ever holds
    more live handles (unallocated plus allocated) than the configured
    maximum, and a further call for a resource that has reached the
    maximum fails with [PoolExhausted] naming that resource, without
    creating a handle. *)
Theorem allocateForSource_respects_maximum
    (urls : list string) (p : Html5AudioPool) (url : string) :
  bounded p →
  let p' := allocateAll urls p in
  liveHandles url p' ≤ _maxNodesPerSource p ∧
  (liveHandles url p' = _maxNodesPerSource p →
     fst (allocateForSource url p') = inl (PoolExhausted url) ∧
     liveHandles url (snd (allocateForSource url p')) = liveHandles url p').
Proof.
  intros Hb p'. pose proof (bounded_allocateAll urls p Hb url) as Hle.
  rewrite max_allocateAll in Hle. split; [exact Hle|].
  intros Heq. destruct (allocateForSource_at_max url p') as (H1 & H2 & _).
  - subst p'. rewrite max_allocateAll. lia.
  - done.
Qed.

Lemma allocateForSource_respects_maximum_witness :
  let p' := allocateAll ["X"; "X"]%string (create 2) in
  liveHandles "X" p' ≤ 2 ∧
  (liveHandles "X" p' = 2 →
     fst (allocateForSource "X" p') = inl (PoolExhausted "X") ∧
     liveHandles "X" (snd (allocateForSource "X" p')) = liveHandles "X" p').
Proof.
  apply (allocateForSource_respects_maximum ["X"; "X"]%string (create 2) "X"%string).
  intros url. vm_compute. lia.
Defined.

(** The scenario of the specification: with a maximum of two, the first
    two calls for [X] succeed with distinct handles and the third throws
    [PoolExhausted] naming [X]. *)
Example allocateForSource_three_calls :
  let p0 := create 2 in
  let r1 := allocateForSource "X" p0 in
  let r2 := allocateForSource "X" (snd r1) in
  let r3 := allocateForSource "X" (snd r2) in
  fst r1 = inr (mkHandle 0 None) ∧ fst r2 = inr (mkHandle 1 None) ∧
  fst r3 = inl (PoolExhausted "X") ∧ liveHandles "X" (snd r3) = 2.
Proof. vm_compute. done. Qed.

End PoolSpec.

(** ** Properties of the streaming loader *)

Module LoaderSpec.
Import Pool Js Loader.

Lemma live_inv (l : MediaLoader) :
  live l → ∃ p b au pr n, l = mkLoader (Some p) (Some b) false au pr n.
Proof.
  destruct l as [[p|] [b|] d au pr n]; intros (Hd & [? Hp] & [? Hb]);
    simpl in *; try discriminate.
  subst d. by exists p, b, au, pr, n.
Qed.

Lemma live_mk p b au pr n : live (mkLoader (Some p) (Some b) false au pr n).
Proof. repeat split; simpl; eauto. Qed.

Lemma cleanUp_live obj p b au pr n :
  _cleanUp obj (mkLoader (Some p) (Some b) false au pr n)
  = (inr tt, mkLoader (Some p) (Some (spliceOut obj b)) false au pr n).
Proof. reflexivity. Qed.



(** Once the loader is disposed the two closures return at once. *)
Lemma listeners_disposed c err l :
  _disposed l = true →
  onCanPlayThrough c l = (inr tt, l) ∧ onError c err l = (inr tt, l).
Proof.
  intros Hd. unfold onCanPlayThrough, onError, bind, isDisposed.
  by rewrite Hd.
Qed.



Lemma allocateForSource_error url p e :
  fst (allocateForSource url p) = inl e → e = PoolExhausted url.
Proof. unfold allocateForSource. case_decide; simpl; congruence. Qed.

Lemma allocateForGroup_error url g p e :
  fst (allocateForGroup url g p) = inl e → e = PoolExhausted url.
Proof.
  unfold allocateForGroup. destruct (reverse _); [case_decide|]; simpl; congruence.
Qed.






(** [_cleanUp] looks the listener up under the key [String(audioObj)], so
    it removes no listener from any audio element. *)
Lemma cleanUp_keeps_listeners (obj : BufferingAudio) (l : MediaLoader) :
  audios (snd (_cleanUp obj l)) = audios l.
Proof.
  unfold _cleanUp, bind, getBuffering, setBuffering; simpl.
  by destruct (_bufferingAudios l).
Qed.

(** Without an argument and with a single URL, [unload] ends in the
    unconditional [urls.forEach] and throws, on every loader. *)
Lemma unload_throws_unless_array (l : MediaLoader) :
  (∃ e l', unload NoUrls l = (inl e, l')) ∧
  (∀ url, ∃ e l', unload (OneUrl url) l = (inl e, l')).
Proof.
  split; [|intros url]; unfold unload, bind;
    match goal with |- context [match ?m l with _ => _ end] =>
      destruct (m l) as [[e|[]] l'] end; unfold throw; eauto.
Qed.

(** C8 (the code departs from it). [unload("a.mp3")] with that load in
    flight throws a [TypeError]; the entry leaves the buffering list, but
    both readiness listeners stay on the audio element and the pool entry
    of the URL is not released. [unload()] throws as well, after cleaning
    up only every other buffering entry. *)
Theorem unload_throws_and_keeps_listeners :
  let r := unload (OneUrl "a.mp3") oneInFlight in
  let r0 := unload NoUrls twoInFlight in
  fst r = inl (TypeError "urls.forEach is not a function") ∧
  _bufferingAudios (snd r) = Some [] ∧
  a_listeners (audioEl 0 (snd r))
    = [("canplaythrough", OnCanPlayThrough (mkCall "a.mp3" None 0 0));
       ("error", OnError (mkCall "a.mp3" None 0 0))] ∧
  (liveHandles "a.mp3" <$> _audioPool (snd r)) = Some 1 ∧
  fst r0 = inl (TypeError "Cannot read properties of undefined (reading 'forEach')") ∧
  (length <$> _bufferingAudios twoInFlight) = Some 2 ∧
  (length <$> _bufferingAudios (snd r0)) = Some 1.
Proof. vm_compute. repeat split; reflexivity. Qed.

(** With an array of URLs [unload] returns, and releases the pool entry
    of each URL; the listeners stay registered all the same. *)
Example unload_array_returns :
  let r := unload (ManyUrls ["a.mp3"]) oneInFlight in
  fst r = inr tt ∧
  _bufferingAudios (snd r) = Some [] ∧
  (liveHandles "a.mp3" <$> _audioPool (snd r)) = Some 0 ∧
  length (a_listeners (audioEl 0 (snd r))) = 2.
Proof. vm_compute. repeat split; reflexivity. Qed.

End LoaderSpec.

(** ** Properties of buffer-backed sounds *)

Module BufferBuzzSpec.
Import BaseBuzz BufferBuzz.
Local Open Scope Q_scope.

Lemma Qltb_lt (x y : Q) : Qltb x y = true ↔ x < y.
Proof.
  unfold Qltb. rewrite negb_true_iff, <- not_true_iff_false, Qle_bool_iff.
  split; [apply Qnot_le_lt | apply Qlt_not_le].
Qed.

Lemma Qltb_ge (x y : Q) : Qltb x y = false ↔ y <= x.
Proof.
  unfold Qltb. rewrite negb_false_iff, Qle_bool_iff. reflexivity.
Qed.

Lemma jsdiv_nonzero (x y : Q) : ¬ y == 0 → jsdiv x y = Some (x / y).
Proof.
  intros Hy. unfold jsdiv. destruct (Qeq_bool y 0) eqn:E; [|done].
  apply Qeq_bool_iff in E. contradiction.
Qed.

Lemma rate_play sound fireEvent now s :
  _rate (_play sound fireEvent now s) = _rate s.
Proof.
  unfold _play. repeat (case_match; simpl; try done).
Qed.

(** The timer that [_play] arms: the region length over the rate, in
    milliseconds. *)
Lemma play_arms_scaled_timer sound fireEvent now s :
  isPlaying s = false → isLoaded s = true →
  let s' := _play sound fireEvent now s in
  _endTimer s' = Some (mkTimer now (jsdiv (regionDuration s' * 1000) (_rate s'))) ∧
  (¬ _rate s == 0 →
   ∃ d, _endTimer s' = Some (mkTimer now (Some d)) ∧
        d == (regionDuration s' / _rate s') * 1000).
Proof.
  intros Hp Hl s'.
  assert (_endTimer s'
          = Some (mkTimer now (jsdiv (regionDuration s' * 1000) (_rate s')))) as Ht.
  { subst s'. unfold _play. rewrite Hp, Hl. destruct fireEvent; reflexivity. }
  split; [exact Ht|]. intros Hnz.
  assert (_rate s' = _rate s) as Hr by apply rate_play.
  rewrite Ht, jsdiv_nonzero by (by rewrite Hr).
  eexists; split; [done|]. field. by rewrite Hr.
Qed.

(** The timer that [_onEnded] arms on a looping sound: the region length
    in seconds, used as milliseconds. *)
Lemma onEnded_rearms_unscaled now s :
  _loop s = true →
  _endTimer (_onEnded now s) = Some (mkTimer now (Some (regionDuration s))).
Proof. intros Hl. unfold _onEnded. by rewrite Hl. Qed.

(** C2 (the code departs from it). A looping sound that plays a region of
    two seconds at rate 1: [play] arms the end timer for 2000 ms, but when
    the timer fires, [_onEnded] rearms it for 2 ms. *)
Theorem loop_refire_timer_is_not_scaled :
  let s1 := play 0 (loadedSound 2 1 true) in
  let s2 := _onEnded 2 s1 in
  _state s1 = Playing ∧
  regionDuration s1 = 2 ∧
  _endTimer s1 = Some (mkTimer 0 (Some 2000)) ∧
  _endTimer s2 = Some (mkTimer 2 (Some 2)) ∧
  ¬ 2 == (2 / 1) * 1000.
Proof. vm_compute. repeat split; try reflexivity. discriminate. Qed.

(** *** [rate] *)

Lemma rate_rejects (v now : Q) (s : BufferBuzz) :
  v < 0 ∨ 5 < v → rate (JsNumber v) now s = Returned s.
Proof.
  intros Hv. unfold rate.
  destruct Hv as [Hv|Hv]; apply Qltb_lt in Hv; rewrite Hv; [done|].
  by rewrite orb_true_r.
Qed.

Lemma rate_guard_passes (v : Q) : 0 <= v → v <= 5 → Qltb v 0 || Qltb 5 v = false.
Proof.
  intros H0 H5. apply Qltb_ge in H0, H5. by rewrite H0, H5.
Qed.

Lemma rate_accepts (v now : Q) (s : BufferBuzz) :
  0 <= v → v <= 5 → wellFormed s →
  ∃ s', rate (JsNumber v) now s = Returned s' ∧
    _rate s' = v ∧
    _rateSeek s' = currentSeek now s ∧
    _startTime s' = now ∧
    _state s' = _state s ∧
    trace s' = trace s ++ [Fired "rate" (Some v)].
Proof.
  intros H0 H5 Hwf. unfold rate. rewrite rate_guard_passes by done.
  unfold wellFormed in Hwf.
  destruct s as [st ld lp r d sk el rs sp ep stt spr sps nd tm q tr].
  unfold isPlaying in *; simpl in *.
  destruct st; try (eexists; split; [reflexivity|]; by repeat split).
  destruct Hwf as [n ->]; [done|].
  unfold _clearEndTimer; simpl.
  destruct tm; simpl; eexists; (split; [reflexivity|]); by repeat split.
Qed.

Lemma rate_playing (v now : Q) (s : BufferBuzz) (n : BufferSourceNode) :
  isPlaying s = true → _bufferSourceNode s = Some n → 0 <= v → v <= 5 →
  ∃ s', rate (JsNumber v) now s = Returned s' ∧
    _rateSeek s' = currentSeek now s ∧
    _startTime s' = now ∧
    _rate s' = v ∧
    (n_playbackRate <$> _bufferSourceNode s') = Some v ∧
    _endTimer s' = Some (mkTimer now (jsdiv (regionDuration s * 1000) (Qabs v))).
Proof.
  intros Hp Hn H0 H5. unfold rate. rewrite rate_guard_passes by done.
  destruct s as [st ld lp r d sk el rs sp ep stt spr sps nd tm q tr].
  unfold isPlaying in *; simpl in *. subst nd.
  destruct st; try discriminate.
  unfold _clearEndTimer; simpl.
  destruct tm; simpl; eexists; (split; [reflexivity|]); by repeat split.
Qed.

(** C4, as the code has it. [rate(v)] leaves the sound untouched and
    fires nothing when [v] is not a number, is negative or exceeds 5
    (and when it is left out, which reads the rate). For every [v] from 0
    to 5, both included, it stores [v] as the rate and fires [rate]. *)
Theorem rate_accepts_zero_to_five (v now : Q) (s : BufferBuzz) :
  rate JsOther now s = Returned s ∧
  rate JsUndefined now s = Returned s ∧
  (v < 0 ∨ 5 < v → rate (JsNumber v) now s = Returned s) ∧
  (0 <= v → v <= 5 → wellFormed s →
     ∃ s', rate (JsNumber v) now s = Returned s' ∧
       _rate s' = v ∧
       trace s' = trace s ++ [Fired "rate" (Some v)]).
Proof.
  split; [done|]. split; [done|]. split; [apply rate_rejects|].
  intros H0 H5 Hwf.
  destruct (rate_accepts v now s H0 H5 Hwf) as (s' & Hr & Hv & _ & _ & _ & Ht).
  by exists s'.
Qed.

Lemma rate_accepts_zero_to_five_witness :
  rate (JsNumber 6) 8 playingSound = Returned playingSound ∧
  ∃ s', rate (JsNumber 2) 8 playingSound = Returned s' ∧
    _rate s' = 2 ∧
    trace s' = trace playingSound ++ [Fired "rate" (Some 2)].
Proof.
  split.
  - apply (rate_accepts_zero_to_five 6 8 playingSound). right. reflexivity.
  - apply (rate_accepts_zero_to_five 2 8 playingSound).
    + discriminate.
    + discriminate.
    + intros _. eexists. reflexivity.
Defined.

(** C4 as stated fails at [v = 0], which lies outside (0, 5]: [rate(0)]
    is not a no-op, it stores 0 and fires [rate]. *)
Lemma rate_zero_is_accepted :
  let s := loadedSound 2 1 false in
  let s' := result (rate (JsNumber 0) 0 s) in
  ¬ 0 < 0 ∧
  rate (JsNumber 0) 0 s ≠ Returned s ∧
  _rate s = 1 ∧ _rate s' = 0 ∧
  trace s' = trace s ++ [Fired "rate" (Some 0)].
Proof.
  split; [apply Qlt_irrefl|]. split; [discriminate|]. by repeat split.
Qed.

(** C5, as the code has it. [rate(v)] with an accepted [v] on a playing
    sound takes the current computed seek position as the rate anchor,
    restarts the time base at the current context time, gives the node
    the new rate, and rearms the end timer for the length of the whole
    region over the new rate, whatever has been played already; so
    [rate(2)] arms a timer of half the region's length in milliseconds. *)
Theorem rate_rearms_for_whole_region (v now : Q) (s : BufferBuzz)
    (n : BufferSourceNode) :
  isPlaying s = true → _bufferSourceNode s = Some n → 0 <= v → v <= 5 →
  (∃ s', rate (JsNumber v) now s = Returned s' ∧
     _rateSeek s' = currentSeek now s ∧
     _startTime s' = now ∧
     _rate s' = v ∧
     (n_playbackRate <$> _bufferSourceNode s') = Some v ∧
     _endTimer s' = Some (mkTimer now (jsdiv (regionDuration s * 1000) (Qabs v)))) ∧
  _endTimer (result (rate (JsNumber 2) now s))
    = Some (mkTimer now (Some (regionDuration s * 1000 / 2))).
Proof.
  intros Hp Hn H0 H5. split; [by eapply rate_playing|].
  destruct (rate_playing 2 now s n Hp Hn) as (s' & Hr & _ & _ & _ & _ & Ht);
    [discriminate..|]. rewrite Hr. simpl. rewrite Ht. reflexivity.
Qed.

Lemma rate_rearms_for_whole_region_witness :
  (∃ s', rate (JsNumber 2) 8 playingSound = Returned s' ∧
     _rateSeek s' = currentSeek 8 playingSound ∧
     _startTime s' = 8 ∧
     _rate s' = 2 ∧
     (n_playbackRate <$> _bufferSourceNode s') = Some 2 ∧
     _endTimer s'
       = Some (mkTimer 8 (jsdiv (regionDuration playingSound * 1000) (Qabs 2)))) ∧
  _endTimer (result (rate (JsNumber 2) 8 playingSound))
    = Some (mkTimer 8 (Some (regionDuration playingSound * 1000 / 2))).
Proof.
  apply (rate_rearms_for_whole_region 2 8 playingSound (mkNode 1 false 0 10 0 0 10)).
  - reflexivity.
  - reflexivity.
  - discriminate.
  - discriminate.
Defined.

(** C5 as stated fails: eight seconds into a region of ten seconds at
    rate 1 the end timer has 2000 ms left; after [rate(2)] it has 5000 ms
    left, not half of 2000 ms. *)
Lemma rate_two_does_not_halve_remaining :
  let s := playingSound in
  let s' := result (rate (JsNumber 2) 8 s) in
  ∃ d d', remainingAt 8 s = Some d ∧ remainingAt 8 s' = Some d' ∧
    d == 2000 ∧ d' == 5000 ∧ ¬ d' == d / 2.
Proof.
  exists 2000, (10000 # 2).
  split; [vm_compute; reflexivity|]. split; [vm_compute; reflexivity|].
  split; [reflexivity|]. split; [reflexivity|]. discriminate.
Qed.

(** *** [seek] *)

Lemma seek_rejects (p now : Q) (s : BufferBuzz) :
  isLoaded s = true → p < 0 ∨ _duration s < p →
  seek (JsNumber p) now s = s.
Proof.
  intros Hl Hp. unfold seek. destruct (Qltb p 0) eqn:E0; [done|].
  rewrite Hl; simpl. destruct Hp as [Hp|Hp]; apply Qltb_lt in Hp; [congruence|].
  by rewrite Hp.
Qed.

Lemma seek_not_number (now : Q) (s : BufferBuzz) : seek JsOther now s = s.
Proof. reflexivity. Qed.

Lemma seek_guard_passes (p now : Q) (s : BufferBuzz) :
  isLoaded s = true → 0 <= p → p <= _duration s →
  seek (JsNumber p) now s
  = let playing := isPlaying s in
    let s1 := if playing then _pause false now s else s in
    let s2 := _fire "seek" (Some p) (set_elapsed p s1) in
    if playing then _play None false now s2 else s2.
Proof.
  intros Hl H0 Hd. unfold seek. apply Qltb_ge in H0, Hd.
  by rewrite H0, Hl, Hd.
Qed.

(** On a loaded sound that is not playing, a valid [seek(p)] only stores
    [p] as the elapsed position and fires [seek]. *)
Lemma seek_not_playing (p now : Q) (s : BufferBuzz) :
  isLoaded s = true → isPlaying s = false → 0 <= p → p <= _duration s →
  seek (JsNumber p) now s = _fire "seek" (Some p) (set_elapsed p s).
Proof.
  intros Hl Hp H0 Hd. rewrite seek_guard_passes by done. by rewrite Hp.
Qed.

(** On a loaded sound that is playing, a valid [seek(p)] pauses, stores
    [p] as the elapsed position, fires [seek] and plays again; the node is
    started at the offset that [_getTimeVars] takes from [_seek], in which
    [p] does not appear. *)
Lemma seek_playing (p now : Q) (s : BufferBuzz) :
  isLoaded s = true → isPlaying s = true → 0 <= p → p <= _duration s →
  let s' := seek (JsNumber p) now s in
  _state s' = Playing ∧
  _elapsed s' = p ∧
  trace s' = trace s ++ [Entered Paused; Fired "seek" (Some p); Entered Playing] ∧
  (n_offset <$> _bufferSourceNode s')
    = Some (Qmax 0 (if Qltb 0 (_seek s) then _seek s else 0)).
Proof.
  intros Hl Hp H0 Hd. rewrite seek_guard_passes by done. rewrite Hp.
  destruct s as [st ld lp r d sk el rs sp ep stt spr sps nd tm q tr].
  unfold isPlaying, isLoaded in *; simpl in *. subst ld.
  destruct st; try discriminate.
  unfold _pause, _reset, _clearEndTimer, _stopNode, _cleanNode, _play; simpl.
  destruct tm, nd; simpl; rewrite <- !app_assoc; by repeat split.
Qed.

(** C6 (the code departs from it). A sound of ten seconds, playing from
    the start: [seek(3)] pauses it, stores 3 as the elapsed position,
    fires [seek] and plays it again, but the node is started at offset 0,
    not 3. *)
Theorem seek_while_playing_restarts_at_region_start :
  let s := playingSound in
  let s' := seek (JsNumber 3) 1 s in
  isLoaded s = true ∧ _state s = Playing ∧ _duration s = 10 ∧
  _state s' = Playing ∧
  _elapsed s' = 3 ∧
  trace s' = trace s ++ [Entered Paused; Fired "seek" (Some 3); Entered Playing] ∧
  (n_offset <$> _bufferSourceNode s') = Some 0 ∧
  ¬ 0 == 3.
Proof. vm_compute. repeat split; try reflexivity. discriminate. Qed.

End BufferBuzzSpec.

(** ** The end of a region on both backends *)

Module OnEndedSpec.
Import BaseBuzz.
Local Open Scope Q_scope.

Lemma buffer_onEnded_loop (now : Q) (s : BufferBuzz.BufferBuzz) :
  BufferBuzz._loop s = true →
  let s' := BufferBuzz._onEnded now s in
  BufferBuzz.trace s'
    = BufferBuzz.trace s ++ [Fired "playend" None; Fired "playstart" None] ∧
  BufferBuzz._state s' = BufferBuzz._state s ∧
  BufferBuzz._seek s' = BufferBuzz._startPos s ∧
  BufferBuzz._rateSeek s' = 0 ∧
  BufferBuzz._startTime s' = now ∧
  BufferBuzz._endTimer s'
    = Some (mkTimer now (Some (BufferBuzz.regionDuration s))).
Proof.
  intros Hl. unfold BufferBuzz._onEnded. rewrite Hl. simpl.
  rewrite <- app_assoc. by repeat split.
Qed.

Lemma buffer_onEnded_once (now : Q) (s : BufferBuzz.BufferBuzz) :
  BufferBuzz._loop s = false →
  let s' := BufferBuzz._onEnded now s in
  BufferBuzz.trace s'
    = BufferBuzz.trace s ++ [Entered Idle; Fired "playend" None] ∧
  BufferBuzz._state s' = Idle ∧
  BufferBuzz._seek s' = 0 ∧
  BufferBuzz._rateSeek s' = 0 ∧
  BufferBuzz._endTimer s' = None ∧
  BufferBuzz._bufferSourceNode s' = None.
Proof.
  intros Hl. unfold BufferBuzz._onEnded. rewrite Hl.
  unfold BufferBuzz._clearEndTimer, BufferBuzz._cleanNode.
  destruct s as [st ld lp r d sk el rs sp ep stt spr sps [n|] [t|] q tr]; simpl;
    rewrite <- app_assoc; by repeat split.
Qed.

Lemma media_onEnded_once (buzzer : MediaBuzz.Engine) (now : Q) (s : MediaBuzz.MediaBuzz) :
  MediaBuzz._loop s = false →
  ∃ s', MediaBuzz._onEnded buzzer now s = MediaBuzz.Returned s' ∧
    MediaBuzz.trace s'
      = MediaBuzz.trace s ++ [Entered Idle; Entered Idle; Fired "playend" None] ∧
    MediaBuzz._state s' = Idle ∧
    MediaBuzz._elapsed s' = 0 ∧
    MediaBuzz._endTimer s' = None ∧
    (MediaBuzz.paused <$> MediaBuzz._audio s') = (λ _, true) <$> MediaBuzz._audio s.
Proof.
  intros Hl. unfold MediaBuzz._onEnded. rewrite Hl. eexists; split; [reflexivity|].
  unfold MediaBuzz._stop, MediaBuzz._clearEndTimer, MediaBuzz._stopNode.
  destruct s as [st ld lp r mu vo d el sp ep [a|] mn [t|] q tr]; simpl;
    rewrite <- !app_assoc; by repeat split.
Qed.

Lemma media_onEnded_loop (buzzer : MediaBuzz.Engine) (now : Q)
    (s : MediaBuzz.MediaBuzz) (a : MediaBuzz.Audio) :
  MediaBuzz._loop s = true →
  MediaBuzz._loaded s = true →
  MediaBuzz._audio s = Some a →
  ∃ s', MediaBuzz._onEnded buzzer now s = MediaBuzz.Returned s' ∧
    MediaBuzz.trace s'
      = MediaBuzz.trace s
          ++ [Fired "playend" None; Entered Idle; Entered Playing; Fired "play" None] ∧
    MediaBuzz._state s' = Playing ∧
    is_Some (MediaBuzz._endTimer s') ∧
    (MediaBuzz.paused <$> MediaBuzz._audio s') = Some false.
Proof.
  intros Hl Hld Ha. unfold MediaBuzz._onEnded. rewrite Hl.
  destruct s as [st ld lp r mu vo d el sp ep au mn t q tr]; simpl in *. subst.
  unfold MediaBuzz.play, MediaBuzz._stop, MediaBuzz._clearEndTimer, MediaBuzz._stopNode,
    MediaBuzz._playNode; simpl.
  destruct t as [t|], mn, buzzer as [[] ev]; simpl;
    eexists; (split; [reflexivity|]); simpl;
    rewrite <- !app_assoc; by repeat split.
Qed.

Lemma buffer_loopsInPlace (now : Q) (s : BufferBuzz.BufferBuzz) :
  BufferBuzz._loop s = true →
  loopsInPlace (BufferBuzz.trace s) (BufferBuzz.trace (BufferBuzz._onEnded now s)).
Proof.
  intros Hl. destruct (buffer_onEnded_loop now s Hl) as (Ht & _).
  eexists; split; [exact Ht|].
  split; [apply list_elem_of_here|].
  split; [apply list_elem_of_further, list_elem_of_here|].
  intros st Hin. apply list_elem_of_In in Hin. simpl in Hin.
  destruct Hin as [Hin|[Hin|[]]]; discriminate.
Qed.

(** C3, as the code has it. When the end timer fires:
    - a looping buffer sound fires [playend], puts its seek position back
      to the region start, rearms the timer, fires [playstart], and its
      state is not assigned (it stays Playing);
    - a buffer sound that does not loop resets its positions, clears the
      timer, drops its node, becomes Idle and fires only [playend];
    - a streaming sound that does not loop is stopped, becomes Idle and
      fires only [playend];
    - a looping streaming sound fires [playend], is stopped, which makes
      it Idle, and is played again: it ends in Playing with a new timer,
      having fired [play] and no [playstart]. *)
Theorem onEnded_on_both_backends
    (now : Q) (b : BufferBuzz.BufferBuzz)
    (buzzer : MediaBuzz.Engine) (m : MediaBuzz.MediaBuzz) (a : MediaBuzz.Audio) :
  (BufferBuzz._loop b = true →
     let b' := BufferBuzz._onEnded now b in
     BufferBuzz.trace b'
       = BufferBuzz.trace b ++ [Fired "playend" None; Fired "playstart" None] ∧
     BufferBuzz._state b' = BufferBuzz._state b ∧
     BufferBuzz._seek b' = BufferBuzz._startPos b ∧
     BufferBuzz._rateSeek b' = 0 ∧
     BufferBuzz._startTime b' = now ∧
     is_Some (BufferBuzz._endTimer b')) ∧
  (BufferBuzz._loop b = false →
     let b' := BufferBuzz._onEnded now b in
     BufferBuzz.trace b'
       = BufferBuzz.trace b ++ [Entered Idle; Fired "playend" None] ∧
     BufferBuzz._state b' = Idle ∧
     BufferBuzz._seek b' = 0 ∧
     BufferBuzz._rateSeek b' = 0 ∧
     BufferBuzz._endTimer b' = None ∧
     BufferBuzz._bufferSourceNode b' = None) ∧
  (MediaBuzz._loop m = false →
     ∃ m', MediaBuzz._onEnded buzzer now m = MediaBuzz.Returned m' ∧
       MediaBuzz.trace m'
         = MediaBuzz.trace m ++ [Entered Idle; Entered Idle; Fired "playend" None] ∧
       MediaBuzz._state m' = Idle ∧
       MediaBuzz._elapsed m' = 0 ∧
       MediaBuzz._endTimer m' = None ∧
       (MediaBuzz.paused <$> MediaBuzz._audio m') = (λ _, true) <$> MediaBuzz._audio m) ∧
  (MediaBuzz._loop m = true → MediaBuzz._loaded m = true → MediaBuzz._audio m = Some a →
     ∃ m', MediaBuzz._onEnded buzzer now m = MediaBuzz.Returned m' ∧
       MediaBuzz.trace m'
         = MediaBuzz.trace m
             ++ [Fired "playend" None; Entered Idle; Entered Playing; Fired "play" None] ∧
       MediaBuzz._state m' = Playing ∧
       is_Some (MediaBuzz._endTimer m') ∧
       (MediaBuzz.paused <$> MediaBuzz._audio m') = Some false).
Proof.
  split; [|split; [|split]].
  - intros Hl. destruct (buffer_onEnded_loop now b Hl) as (H1 & H2 & H3 & H4 & H5 & H6).
    simpl. rewrite H6. repeat split; done.
  - apply buffer_onEnded_once.
  - apply media_onEnded_once.
  - apply media_onEnded_loop.
Qed.

Lemma onEnded_on_both_backends_witness :
  let b1 := BufferBuzz.play 0 (BufferBuzz.loadedSound 2 1 true) in
  let b1' := BufferBuzz._onEnded 2 b1 in
  let m1 := MediaBuzz.playingLoop in
  BufferBuzz.trace b1'
    = BufferBuzz.trace b1 ++ [Fired "playend" None; Fired "playstart" None] ∧
  ∃ m1', MediaBuzz._onEnded MediaBuzz.anEngine 2 m1 = MediaBuzz.Returned m1' ∧
    MediaBuzz._state m1' = Playing.
Proof.
  pose proof (onEnded_on_both_backends 2
                (BufferBuzz.play 0 (BufferBuzz.loadedSound 2 1 true))
                MediaBuzz.anEngine MediaBuzz.playingLoop
                (MediaBuzz.mkAudio 0 false false 1 1)) as (Hb & _ & _ & Hm).
  split.
  - exact (proj1 (Hb eq_refl)).
  - destruct (Hm eq_refl eq_refl eq_refl) as (m1' & H1 & _ & H2 & _).
    exists m1'. split; [exact H1 | exact H2].
Defined.

(** C3 as stated fails on the streaming backend: a looping streaming
    sound whose end timer fires passes through Idle and fires [play]; it
    does not fire [playstart]. *)
Lemma media_loop_restarts_through_idle :
  let m := MediaBuzz.playingLoop in
  let m' := MediaBuzz.result (MediaBuzz._onEnded MediaBuzz.anEngine 2 m) in
  MediaBuzz._loop m = true ∧ MediaBuzz._state m = Playing ∧
  MediaBuzz.trace m'
    = MediaBuzz.trace m
        ++ [Fired "playend" None; Entered Idle; Entered Playing; Fired "play" None] ∧
  ¬ loopsInPlace (MediaBuzz.trace m) (MediaBuzz.trace m').
Proof.
  split; [reflexivity|]. split; [reflexivity|]. split; [reflexivity|].
  intros (delta & Heq & _ & Hin & _).
  change (MediaBuzz.trace MediaBuzz.playingLoop
            ++ [Fired "playend" None; Entered Idle; Entered Playing; Fired "play" None]
          = MediaBuzz.trace MediaBuzz.playingLoop ++ delta) in Heq.
  apply app_inv_head in Heq. subst delta.
  apply list_elem_of_In in Hin. simpl in Hin.
  destruct Hin as [Hin|[Hin|[Hin|[Hin|[]]]]]; discriminate.
Qed.

End OnEndedSpec.

(** ** Properties of the engine *)

Module EngineSpec.
Import Js Engine.
Local Open Scope Q_scope.

(** *** [setup] *)

(** C10. On an engine whose state is anything but NotReady, [setup]
    returns the engine as it is, whatever the arguments and the platform:
    no option is read, no context, gain node, loader or sweep timer is
    created, and the state is not modified. *)
Theorem setup_once (args : option Options) (platform : option AudioContext)
    (e : Engine) :
  _state e ≠ NotReady → setup args platform e = e.
Proof. intros Hs. unfold setup. by case_decide. Qed.

Lemma setup_once_witness :
  setup (Some (mkOptions (BaseBuzz.JsNumber 0.5) (Some true) (Some 3%nat) (Some 1)
                         (Some false) (Some 1%nat) None None None None None None))
        (Some (mkContext CtxSuspended [] 0)) readyEngine
  = readyEngine.
Proof. apply setup_once. discriminate. Defined.

(** The first [setup] does all of that. *)
Example setup_first :
  let e := setup (Some (mkOptions (BaseBuzz.JsNumber 0.5) (Some true) (Some 3%nat) (Some 1)
                                  (Some false) (Some 1%nat) None None None None None None))
                 (Some (mkContext CtxRunning [] 0)) newEngine in
  _state e = Ready ∧ _volume e = 0.5 ∧ _muted e = true ∧
  _maxNodesPerSource e = 3%nat ∧
  _gainNode e = Some (mkGain 0 true) ∧
  _intervalId e = Some (1 * 60 * 1000) ∧
  _mediaLoader e = Some (Loader.create 3) ∧
  subscriptions e = [("stop", 1%nat)] ∧
  trace e = [Entered Ready].
Proof. vm_compute. by repeat split. Qed.

(** *** [suspend] and [resume] *)

Lemma rebuilt_same (e : Engine) :
  rebuilt e (_state e) (_context e) (_queue e) (trace e) = e.
Proof. by destruct e. Qed.

Lemma stop_all e st ctx q tr :
  stop None (rebuilt e st ctx q tr) = (inr tt, rebuilt e st ctx q (stopped e tr)).
Proof. reflexivity. Qed.

Lemma suspend_ready e cst fl now q tr :
  suspend (rebuilt e Ready (Some (mkContext cst fl now)) q tr)
  = (inr tt, rebuilt e Suspending (Some (mkContext cst (fl ++ [SuspendInFlight]) now)) q
                     (stopped e tr ++ [Entered Suspending])).
Proof. reflexivity. Qed.

Lemma suspend_resuming e ctx q tr :
  suspend (rebuilt e Resuming ctx (Some q) tr)
  = (inr tt, rebuilt e Resuming ctx
                     (Some (queueAdd "after-resume" "suspend" DSuspend q)) tr).
Proof. reflexivity. Qed.

Lemma suspend_ignored e st ctx q tr :
  st ≠ Resuming → st ≠ Ready →
  suspend (rebuilt e st ctx q tr) = (inr tt, rebuilt e st ctx q tr).
Proof. intros H1 H2. by destruct st. Qed.

Lemma resume_suspended e cst fl now q tr :
  resume (rebuilt e Suspended (Some (mkContext cst fl now)) q tr)
  = (inr tt, rebuilt e Resuming (Some (mkContext cst (fl ++ [ResumeInFlight]) now)) q
                     (tr ++ [Entered Resuming])).
Proof. reflexivity. Qed.

Lemma resume_suspending e ctx q tr :
  resume (rebuilt e Suspending ctx (Some q) tr)
  = (inr tt, rebuilt e Suspending ctx
                     (Some (queueAdd "after-suspend" "resume" DResume q)) tr).
Proof. reflexivity. Qed.

Lemma resume_ignored e st ctx q tr :
  st ≠ Suspending → st ≠ Suspended →
  resume (rebuilt e st ctx q tr) = (inr tt, rebuilt e st ctx q tr).
Proof. intros H1 H2. by destruct st. Qed.

Lemma settle_idle e st cst now q tr :
  settle (rebuilt e st (Some (mkContext cst [] now)) q tr)
  = (inr tt, rebuilt e st (Some (mkContext cst [] now)) q tr).
Proof. reflexivity. Qed.

Lemma settle_no_context e st q tr :
  settle (rebuilt e st None q tr) = (inr tt, rebuilt e st None q tr).
Proof. reflexivity. Qed.

(** The suspension settles with nothing queued. *)
Lemma settle_suspend e st cst now tr :
  settle (rebuilt e st (Some (mkContext cst [SuspendInFlight] now)) (Some []) tr)
  = (inr tt, rebuilt e Suspended (Some (mkContext CtxSuspended [] now)) (Some [])
                     (tr ++ [Entered Suspended; Fired "suspend"])).
Proof. unfold rebuilt. cbv -[app]. rewrite <- !app_assoc. reflexivity. Qed.

(** The suspension settles with a resumption queued: the resumption is
    started from the callback, once the engine is Suspended. *)
Lemma settle_suspend_queued e st cst now tr :
  settle (rebuilt e st (Some (mkContext cst [SuspendInFlight] now))
                  (Some [("after-suspend", "resume", DResume)]) tr)
  = (inr tt, rebuilt e Resuming (Some (mkContext CtxSuspended [ResumeInFlight] now))
                     (Some [])
                     (tr ++ [Entered Suspended; Entered Resuming; Fired "suspend"])).
Proof. unfold rebuilt. cbv -[app]. rewrite <- !app_assoc. reflexivity. Qed.

Lemma settle_resume e st cst now tr :
  settle (rebuilt e st (Some (mkContext cst [ResumeInFlight] now)) (Some []) tr)
  = (inr tt, rebuilt e Ready (Some (mkContext CtxRunning [] now)) (Some [])
                     (tr ++ [Entered Ready; Fired "resume"])).
Proof. unfold rebuilt. cbv -[app]. rewrite <- !app_assoc. reflexivity. Qed.

(** The resumption settles with a suspension queued: the sounds are
    stopped and the suspension is started from the callback, once the
    engine is Ready. *)
Lemma settle_resume_queued e st cst now tr :
  settle (rebuilt e st (Some (mkContext cst [ResumeInFlight] now))
                  (Some [("after-resume", "suspend", DSuspend)]) tr)
  = (inr tt, rebuilt e Suspending (Some (mkContext CtxRunning [SuspendInFlight] now))
                     (Some [])
                     (tr ++ [Entered Ready] ++ (BuzzStopped <$> _buzzesArray e)
                         ++ [Fired "stop"; Entered Suspending; Fired "resume"])).
Proof.
  unfold rebuilt. cbv -[app fmap list_fmap _buzzesArray]. rewrite <- !app_assoc.
  reflexivity.
Qed.

Lemma is_Some_None_false {A} : ¬ is_Some (@None A).
Proof. by intros [? ?]. Qed.

(** No call throws on a consistent engine, and every call keeps the
    engine consistent. *)
Lemma perform_consistent (c : Call) (e : Engine) :
  consistent e →
  fst (perform c e) = inr tt ∧ consistent (snd (perform c e)).
Proof.
  intros H. rewrite <- (rebuilt_same e). revert H.
  unfold consistent, inFlight.
  generalize (trace e) as tr. generalize (_queue e) as qu.
  generalize (_context e) as ctx. generalize (_state e) as st.
  intros st ctx qu tr H.
  destruct ctx as [[cst fl now]|]; simpl in *;
    destruct st; destruct_and?;
    try (exfalso; eapply is_Some_None_false; eassumption);
    repeat match goal with H : _ ∨ _ |- _ => destruct H end;
    subst; destruct c; unfold perform;
    first [ rewrite stop_all | rewrite suspend_ready | rewrite suspend_resuming
          | rewrite suspend_ignored by done
          | rewrite resume_suspended | rewrite resume_suspending
          | rewrite resume_ignored by done
          | rewrite settle_idle | rewrite settle_no_context
          | rewrite settle_suspend | rewrite settle_suspend_queued
          | rewrite settle_resume | rewrite settle_resume_queued ];
    simpl; repeat split; eauto.
Qed.

Lemma performAll_consistent (cs : list Call) (e : Engine) :
  consistent e → consistent (performAll cs e).
Proof.
  revert e. induction cs as [|c cs IH]; intros e H; simpl; [done|].
  by apply IH, perform_consistent.
Qed.

Lemma consistent_inFlight (e : Engine) :
  consistent e → (length (inFlight e) ≤ 1)%nat.
Proof.
  unfold consistent. destruct (_state e); intros H; destruct_and?;
    match goal with H : inFlight e = _ |- _ => rewrite H end; simpl; lia.
Qed.

(** One assignment of [setup]: the engine it yields has the context and
    the queue of the engine before it. *)
Ltac next_assignment c :=
  lazymatch goal with
  | |- consistent (let e := ?a in @?f e) =>
      let e' := fresh "e" in
      change (let e' := a in consistent (f e')); intros e'; cbv beta;
      try (assert (sameContextAndQueue c e')
             by (subst e'; unfold subscribe;
                 repeat match goal with
                        | H : sameContextAndQueue _ _ |- _ => destruct H
                        end;
                 repeat case_match; done);
           clearbody e')
  end.

(** An engine set up on a context on which nothing is in flight is
    consistent. *)
Lemma setup_consistent (args : option Options) (cst : ContextState) (now : Q) :
  consistent (setup args (Some (mkContext cst [] now)) newEngine).
Proof.
  cbv beta delta [setup].
  destruct (decide (_state newEngine ≠ NotReady)) as [Hs|Hs]; [by destruct Hs|].
  set (c := mkContext cst [] now).
  do 2 next_assignment c.
  match goal with
  | H : sameContextAndQueue c ?e |- consistent (match _context ?e with _ => _ end) =>
      rewrite (proj1 H)
  end.
  repeat next_assignment c.
  match goal with H : sameContextAndQueue c ?e |- consistent (enter _ ?e) =>
    destruct H as [Hc Hq] end.
  unfold consistent, enter, inFlight.
  destruct cst; simpl; rewrite Hc, Hq; simpl; by eauto.
Qed.


(** C9. On an engine whose state, context and queue agree (as they do
    after [setup] and after every call):
    - [suspend()] while Resuming only queues the suspension, nothing new
      is in flight; when the resumption settles, the engine becomes
      Ready, the queued suspension runs and the engine is Suspending with
      the suspension alone in flight;
    - [resume()] while Suspending only queues the resumption; when the
      suspension settles, the engine becomes Suspended, the queued
      resumption runs and the engine is Resuming with the resumption
      alone in flight;
    - [suspend()] when Ready stops every buzz and fires [stop] before
      the engine enters Suspending;
    - after any sequence of calls and settlements, at most one
      transition is in flight. *)
Theorem opposite_request_waits_for_transition (e : Engine) :
  consistent e →
  (_state e = Resuming →
     ∃ e1 e2, suspend e = (inr tt, e1) ∧
       _state e1 = Resuming ∧ inFlight e1 = [ResumeInFlight] ∧
       trace e1 = trace e ∧
       _queue e1 = Some [("after-resume", "suspend", DSuspend)] ∧
       settle e1 = (inr tt, e2) ∧
       _state e2 = Suspending ∧ inFlight e2 = [SuspendInFlight] ∧
       trace e2 = trace e ++ [Entered Ready] ++ (BuzzStopped <$> _buzzesArray e)
                    ++ [Fired "stop"; Entered Suspending; Fired "resume"]) ∧
  (_state e = Suspending →
     ∃ e1 e2, resume e = (inr tt, e1) ∧
       _state e1 = Suspending ∧ inFlight e1 = [SuspendInFlight] ∧
       trace e1 = trace e ∧
       _queue e1 = Some [("after-suspend", "resume", DResume)] ∧
       settle e1 = (inr tt, e2) ∧
       _state e2 = Resuming ∧ inFlight e2 = [ResumeInFlight] ∧
       trace e2 = trace e ++ [Entered Suspended; Entered Resuming; Fired "suspend"]) ∧
  (_state e = Ready →
     ∃ e1, suspend e = (inr tt, e1) ∧
       _state e1 = Suspending ∧ inFlight e1 = [SuspendInFlight] ∧
       trace e1 = trace e ++ (BuzzStopped <$> _buzzesArray e)
                    ++ [Fired "stop"; Entered Suspending]) ∧
  (∀ cs, consistent (performAll cs e) ∧
         (length (inFlight (performAll cs e)) ≤ 1)%nat).
Proof.
  intros H. split; [|split; [|split]].
  - intros Hs.
    replace (suspend e)
      with (suspend (rebuilt e (_state e) (_context e) (_queue e) (trace e)))
      by (by rewrite rebuilt_same).
    revert H. unfold consistent, inFlight. rewrite Hs.
    destruct (_context e) as [[cst fl now]|]; simpl;
      intros (Hc & Hf & Hq); [subst fl|by destruct Hc].
    assert (queueAdd "after-resume" "suspend" DSuspend (default [] (_queue e))
            = [("after-resume", "suspend", DSuspend)]) as Hadd
      by (by destruct Hq as [->| ->]).
    assert (_queue e = Some (default [] (_queue e))) as -> by (by destruct Hq as [->| ->]).
    rewrite suspend_resuming, Hadd.
    eexists _, _. split; [reflexivity|].
    do 4 (split; [reflexivity|]).
    split; [apply settle_resume_queued|]. by repeat split.
  - intros Hs.
    replace (resume e)
      with (resume (rebuilt e (_state e) (_context e) (_queue e) (trace e)))
      by (by rewrite rebuilt_same).
    revert H. unfold consistent, inFlight. rewrite Hs.
    destruct (_context e) as [[cst fl now]|]; simpl;
      intros (Hc & Hf & Hq); [subst fl|by destruct Hc].
    assert (queueAdd "after-suspend" "resume" DResume (default [] (_queue e))
            = [("after-suspend", "resume", DResume)]) as Hadd
      by (by destruct Hq as [->| ->]).
    assert (_queue e = Some (default [] (_queue e))) as -> by (by destruct Hq as [->| ->]).
    rewrite resume_suspending, Hadd.
    eexists _, _. split; [reflexivity|].
    do 4 (split; [reflexivity|]).
    split; [apply settle_suspend_queued|]. by repeat split.
  - intros Hs.
    replace (suspend e)
      with (suspend (rebuilt e (_state e) (_context e) (_queue e) (trace e)))
      by (by rewrite rebuilt_same).
    revert H. unfold consistent, inFlight. rewrite Hs.
    destruct (_context e) as [[cst fl now]|]; simpl;
      intros (Hc & Hf & Hq); [subst fl|by destruct Hc].
    rewrite suspend_ready. eexists; split; [reflexivity|].
    unfold stopped; simpl. rewrite <- !app_assoc. by repeat split.
  - intros cs. split; [|apply consistent_inFlight]; by apply performAll_consistent.
Qed.

Lemma opposite_request_waits_for_transition_witness :
  ∃ e1 e2, suspend resumingEngine = (inr tt, e1) ∧
    _state e1 = Resuming ∧
    settle e1 = (inr tt, e2) ∧
    _state e2 = Suspending ∧ inFlight e2 = [SuspendInFlight].
Proof.
  assert (consistent resumingEngine) as H.
  { unfold consistent; simpl. split; [by eexists|]. split; [reflexivity|]. by left. }
  destruct (opposite_request_waits_for_transition resumingEngine H) as (Hr & _).
  destruct (Hr eq_refl) as (e1 & e2 & H1 & H2 & _ & _ & _ & H3 & H4 & H5 & _).
  exists e1, e2. repeat split; assumption.
Defined.

End EngineSpec.

(** ** Properties of the engine's registry, mute and volume *)

Module EngineControlsSpec.
Import Js BaseBuzz Engine EngineControls BufferBuzzSpec.
Local Open Scope Q_scope.

Lemma indexOf_None (x : nat) (l : list nat) : indexOf x l = None ↔ x ∉ l.
Proof.
  induction l as [|y l IH]; simpl.
  - split; [intros _; apply not_elem_of_nil | done].
  - rewrite not_elem_of_cons. case_decide as Hy.
    + split; [done|]. intros [Hne _]. by destruct Hne.
    + destruct (indexOf x l); simpl.
      * split; [done|]. intros [_ Hn]. by apply IH in Hn.
      * split; [|done]. intros _. split; [done|]. by apply IH.
Qed.

Lemma indexOf_app_fresh (x : nat) (l : list nat) :
  x ∉ l → indexOf x (l ++ [x]) = Some (length l).
Proof.
  induction l as [|y l IH]; simpl; intros Hn.
  - by rewrite decide_True.
  - apply not_elem_of_cons in Hn as [Hne Hn].
    rewrite decide_False by done. by rewrite IH.
Qed.

Lemma delete_last (l : list nat) (x : nat) : delete (length l) (l ++ [x]) = l.
Proof. induction l as [|y l IH]; simpl; [done|]. by rewrite IH. Qed.

Lemma set_buzzesArray_same (e : Engine) : set_buzzesArray (_buzzesArray e) e = e.
Proof. by destruct e. Qed.

(** X1. [add(buzz)] registers a buzz once. On a registry without
    duplicates, the buzz is registered after the call and the registry
    still has no duplicates; adding it a second time changes nothing; and
    removing a buzz that has just been added to a registry that did not
    hold it gives the engine back as it was. *)
Theorem add_registers_once (buzz : nat) (e : Engine) :
  NoDup (_buzzesArray e) →
  buzz ∈ _buzzesArray (add buzz e) ∧
  NoDup (_buzzesArray (add buzz e)) ∧
  add buzz (add buzz e) = add buzz e ∧
  (buzz ∉ _buzzesArray e → remove buzz (add buzz e) = e).
Proof.
  intros Hnd. unfold add. case_bool_decide as Hin.
  - split; [done|]. split; [done|]. split; [by rewrite bool_decide_eq_true_2|done].
  - simpl. split; [set_solver|]. split.
    + apply NoDup_app. split; [done|]. split; [|apply NoDup_singleton].
      intros x Hx Hx'. apply list_elem_of_singleton in Hx'. by subst.
    + split.
      * rewrite bool_decide_eq_true_2; [done|]. simpl. set_solver.
      * intros _. unfold remove; simpl. rewrite indexOf_app_fresh by done.
        rewrite delete_last. by destruct e.
Qed.

Lemma delete_indexOf (x : nat) (l : list nat) (i : nat) :
  indexOf x l = Some i → NoDup l → ∀ y, y ∈ delete i l ↔ y ∈ l ∧ y ≠ x.
Proof.
  revert i. induction l as [|z l IH]; simpl; intros i Hi Hnd y; [done|].
  apply NoDup_cons in Hnd as [Hz Hnd].
  case_decide as Hzx.
  - simplify_eq. simpl. rewrite elem_of_cons. split.
    + intros Hy. split; [by right|]. intros ->. done.
    + intros [[->|Hy] Hne]; done.
  - destruct (indexOf x l) as [j|] eqn:Hj; [|discriminate].
    simpl in Hi. injection Hi as <-.
    change (delete (S j) (z :: l)) with (z :: delete j l).
    rewrite !elem_of_cons, (IH j eq_refl Hnd).
    split; [intros [->|[? ?]]; split; auto | intros [[->|?] ?]; auto].
Qed.

(** X2. [remove(buzz)] splices at [indexOf(buzz)]. On a registry without
    duplicates, a registered buzz is taken out and every other buzz
    stays; for a buzz that is not registered the index is -1, and the
    call drops the buzz that was registered last. *)
Theorem remove_registered_or_last (buzz : nat) (e : Engine) :
  NoDup (_buzzesArray e) →
  (buzz ∈ _buzzesArray e →
     ∀ x, x ∈ _buzzesArray (remove buzz e) ↔ x ∈ _buzzesArray e ∧ x ≠ buzz) ∧
  (buzz ∉ _buzzesArray e →
     _buzzesArray (remove buzz e) = removelast (_buzzesArray e) ∧
     ∀ l last, _buzzesArray e = l ++ [last] →
       last ∉ _buzzesArray (remove buzz e)).
Proof.
  intros Hnd. unfold remove; simpl. split.
  - intros Hin. destruct (indexOf buzz (_buzzesArray e)) as [i|] eqn:Hi.
    + by apply delete_indexOf.
    + by apply indexOf_None in Hi.
  - intros Hn. apply indexOf_None in Hn. rewrite Hn. split; [done|].
    intros l last Hl. rewrite Hl in Hnd |- *. rewrite removelast_last.
    apply NoDup_app in Hnd as (_ & Hd & _). intros Hin. apply (Hd _ Hin).
    apply list_elem_of_here.
Qed.

Lemma remove_registered_or_last_witness :
  _buzzesArray (remove 9%nat readyEngine) = [7%nat] ∧
  (∀ x, x ∈ _buzzesArray (remove 7%nat readyEngine) ↔ x ∈ [7%nat; 8%nat] ∧ x ≠ 7%nat).
Proof.
  assert (NoDup (_buzzesArray readyEngine)) as Hnd.
  { simpl. apply NoDup_cons. split; [|apply NoDup_singleton].
    intros H. apply list_elem_of_singleton in H. discriminate. }
  destruct (remove_registered_or_last 9%nat readyEngine Hnd) as (_ & H9).
  destruct (remove_registered_or_last 7%nat readyEngine Hnd) as (H7 & _).
  split.
  - apply H9. simpl. intros H. apply list_elem_of_In in H. simpl in H.
    destruct H as [H|[H|[]]]; discriminate.
  - apply H7. apply list_elem_of_here.
Defined.

Lemma add_registers_once_witness :
  15%nat ∈ _buzzesArray (add 15%nat readyEngine) ∧
  remove 15%nat (add 15%nat readyEngine) = readyEngine.
Proof.
  assert (NoDup (_buzzesArray readyEngine)) as Hnd.
  { simpl. apply NoDup_cons. split; [|apply NoDup_singleton].
    intros H. apply list_elem_of_singleton in H. discriminate. }
  destruct (add_registers_once 15%nat readyEngine Hnd) as (H1 & _ & _ & H4).
  split; [exact H1|]. apply H4. simpl. intros H. apply list_elem_of_In in H.
  simpl in H. destruct H as [H|[H|[]]]; discriminate.
Defined.

(** *** The master gain *)

Lemma control_gainFollows (c : Control) (e : Engine) :
  gainFollows e → gainFollows (snd (control c e)).
Proof.
  destruct e as [mu vo mx cu ina ae iv av st ctx gn qu bz sn bl ml sub il tr].
  unfold gainFollows; simpl. intros H.
  destruct c as [| |[|v|]]; simpl; try exact H.
  - destruct mu; [exact H|].
    destruct gn as [g|], ctx as [c|]; simpl; try exact H.
    intros g' Hg'. by simplify_eq.
  - destruct mu; [|exact H].
    destruct gn as [g|], ctx as [c|]; simpl; try exact H.
    intros g' Hg'. by simplify_eq.
  - unfold volume. destruct (_ || _); [exact H|].
    destruct gn as [g|], ctx as [c|]; simpl; try exact H.
    intros g' Hg'. by simplify_eq.
Qed.

(** X3. Whatever sequence of [mute()], [unmute()] and [volume(v)]
    calls is made, with accepted or refused arguments, returning or
    throwing, the master gain stays at 0 while the engine is muted and at
    the engine's volume while it is not. *)
Theorem gain_follows_mute_and_volume (cs : list Control) (e : Engine) :
  gainFollows e → gainFollows (controlAll cs e).
Proof.
  revert e. induction cs as [|c cs IH]; intros e H; simpl; [done|].
  by apply IH, control_gainFollows.
Qed.

Lemma gain_follows_mute_and_volume_witness :
  gainFollows (controlAll [Volume (JsNumber 0.5); Mute; Volume (JsNumber 2);
                           Unmute] readyEngine).
Proof.
  apply gain_follows_mute_and_volume.
  intros g Hg. simpl in Hg. injection Hg as <-. reflexivity.
Defined.


(** X4. [volume(v)] leaves the engine untouched when [v] is not a
    number, is negative or exceeds 1. For [v] from 0 to 1, both included,
    it sets the master gain (to 0 if the engine is muted, to [v] if not),
    stores [v] and fires [volume]; on an engine without gain node or
    without context (before [setup], or without audio) it throws a
    [TypeError] and changes nothing. *)
Theorem volume_accepts_zero_to_one (v : Q) (e : Engine) :
  volume JsOther e = (inr tt, e) ∧
  (v < 0 ∨ 1 < v → volume (JsNumber v) e = (inr tt, e)) ∧
  (0 <= v → v <= 1 →
     (∀ g c, _gainNode e = Some g → _context e = Some c →
        volume (JsNumber v) e
        = (inr tt,
           _fire "volume"
             (set_volume v
                (set_gainNode (Some (mkGain (if _muted e then 0 else v) (connected g)))
                   e)))) ∧
     (_gainNode e = None ∨ _context e = None →
        ∃ msg, volume (JsNumber v) e = (inl (TypeError msg), e))).
Proof.
  split; [done|]. split.
  - intros Hv. unfold volume.
    destruct Hv as [Hv|Hv]; apply Qltb_lt in Hv; rewrite Hv; [done|].
    by rewrite orb_true_r.
  - intros H0 H1. apply Qltb_ge in H0, H1. unfold volume. rewrite H0, H1.
    destruct e as [mu vo mx cu ina ae iv av st ctx gn qu bz sn bl ml sub il tr].
    unfold bind, setGain, getGainNode, getContext, modify; simpl. split.
    + intros g c -> ->. reflexivity.
    + intros [->| ->]; [by eexists|]. destruct gn; by eexists.
Qed.

Lemma volume_accepts_zero_to_one_witness :
  volume (JsNumber 2) readyEngine = (inr tt, readyEngine) ∧
  volume (JsNumber 0.5) readyEngine
  = (inr tt,
     _fire "volume"
       (set_volume 0.5 (set_gainNode (Some (mkGain 0.5 true)) readyEngine))) ∧
  ∃ msg, volume (JsNumber 0.5) newEngine = (inl (TypeError msg), newEngine).
Proof.
  destruct (volume_accepts_zero_to_one 2 readyEngine) as (_ & H2 & _).
  destruct (volume_accepts_zero_to_one 0.5 readyEngine) as (_ & _ & H5).
  destruct (volume_accepts_zero_to_one 0.5 newEngine) as (_ & _ & Hn).
  split; [apply H2; right; reflexivity|]. split.
  - assert (0 <= 0.5) as Ha by discriminate.
    assert (0.5 <= 1) as Hb by discriminate.
    destruct (H5 Ha Hb) as (H & _).
    exact (H (mkGain 1 true) (mkContext CtxRunning [] 0) eq_refl eq_refl).
  - assert (0 <= 0.5) as Ha by discriminate.
    assert (0.5 <= 1) as Hb by discriminate.
    destruct (Hn Ha Hb) as (_ & H). apply H. by left.
Defined.

(** X5. On an engine that is set up and not muted, [mute()] silences
    the master gain, sets the flag and fires [mute]; a second [mute()] and
    an [unmute()] of an engine that is not muted do nothing; [unmute()]
    after [mute()] restores the engine but for the two [mute] events
    fired. *)
Theorem mute_then_unmute (e : Engine) (g : GainNode) (c : AudioContext) :
  _gainNode e = Some g → _context e = Some c →
  _muted e = false → gain g = _volume e →
  let e1 := snd (mute e) in
  let e2 := snd (unmute e1) in
  mute e = (inr tt, e1) ∧
  _muted e1 = true ∧ (gain <$> _gainNode e1) = Some 0 ∧
  trace e1 = trace e ++ [Fired "mute"] ∧
  mute e1 = (inr tt, e1) ∧
  unmute e = (inr tt, e) ∧
  unmute e1 = (inr tt, e2) ∧
  e2 = set_trace (trace e ++ [Fired "mute"; Fired "mute"]) e.
Proof.
  destruct e as [mu vo mx cu ina ae iv av st ctx gn qu bz sn bl ml sub il tr].
  destruct g as [gv gc]. simpl. intros -> -> -> ->.
  unfold mute, unmute, bind, setGain, getGainNode, getContext, modify,
    _fire, set_muted, set_gainNode, set_trace; simpl.
  rewrite <- app_assoc. by repeat split.
Qed.

Lemma mute_then_unmute_witness :
  let e1 := snd (mute readyEngine) in
  _muted e1 = true ∧ (gain <$> _gainNode e1) = Some 0 ∧
  snd (unmute e1)
  = set_trace (trace readyEngine ++ [Fired "mute"; Fired "mute"]) readyEngine.
Proof.
  destruct (mute_then_unmute readyEngine (mkGain 1 true) (mkContext CtxRunning [] 0)
              eq_refl eq_refl eq_refl eq_refl) as (_ & H1 & H2 & _ & _ & _ & _ & H3).
  split; [exact H1|]. split; [exact H2|exact H3].
Defined.

End EngineControlsSpec.

(** ** Properties of [setup] *)

Module EngineSetupSpec.
Import Js BaseBuzz Engine EngineControls.
Local Open Scope Q_scope.

Ltac keep_assignment e0 c :=
  lazymatch goal with
  | |- setUpOn e0 c (let e := ?a in @?f e) =>
      let e' := fresh "e" in
      change (let e' := a in setUpOn e0 c (f e')); intros e'; cbv beta;
      try (assert (keptBySetup e0 c e')
             by (subst e'; unfold subscribe;
                 repeat match goal with
                        | H : keptBySetup _ _ _ |- _ => destruct H as (? & ? & ? & ? & ?)
                        end;
                 repeat case_match; done);
           clearbody e')
  end.

Lemma setup_setUpOn (args : option Options) (c : AudioContext) (e0 : Engine) :
  _state e0 = NotReady → setUpOn e0 c (setup args (Some c) e0).
Proof.
  intros Hs. cbv beta delta [setup].
  destruct (decide (_state e0 ≠ NotReady)) as [Hn|_]; [done|].
  do 2 keep_assignment e0 c.
  match goal with
  | H : keptBySetup e0 c ?e |- setUpOn e0 c (match _context ?e with _ => _ end) =>
      rewrite (proj1 H)
  end.
  repeat keep_assignment e0 c.
  match goal with H : keptBySetup e0 c ?e |- setUpOn e0 c (enter _ ?e) =>
    exists e; split; [reflexivity|exact H] end.
Qed.

Ltac skip_assignment :=
  lazymatch goal with
  | |- graphBuilt (let e := ?a in @?f e) =>
      lazymatch a with
      | set_gainNode _ _ => fail
      | _ =>
          let e' := fresh "e" in
          change (let e' := a in graphBuilt (f e')); intros e'; cbv beta
      end
  end.

Lemma setup_graphBuilt (args : option Options) (c : AudioContext) (e0 : Engine) :
  _state e0 = NotReady → graphBuilt (setup args (Some c) e0).
Proof.
  intros Hs. cbv beta delta [setup].
  destruct (decide (_state e0 ≠ NotReady)) as [Hn|_]; [done|].
  do 2 skip_assignment.
  repeat match goal with x := _ : Engine |- _ => subst x end.
  cbn [_context set_context set_isAudioAvailable].
  repeat (skip_assignment;
          match goal with x := _ : Engine |- _ => clearbody x end).
  cbv zeta. eexists. split; [reflexivity|]. split; reflexivity.
Qed.

Ltac read_assignment :=
  lazymatch goal with
  | |- optionsRead ?e0 ?o (let e := ?a in @?f e) =>
      let e' := fresh "e" in
      change (let e' := a in optionsRead e0 o (f e')); intros e'; cbv beta
  end.

Ltac read_kept e0 o :=
  lazymatch goal with
  | |- optionsRead e0 o (let e := ?a in @?f e) =>
      let e' := fresh "e" in
      change (let e' := a in optionsRead e0 o (f e')); intros e'; cbv beta;
      assert (optionsRead e0 o e')
        by (subst e';
            repeat match goal with
                   | H : optionsRead _ _ _ |- _ => destruct H as (? & ? & ? & ? & ?)
                   end;
            unfold optionsRead, subscribe;
            first [ by (repeat split; assumption)
                  | repeat match goal with
                           | |- context [match ?x with Some _ => _ | None => _ end] =>
                               destruct x
                           | |- context [if ?x then _ else _] => destruct x
                           end; repeat split; assumption ]);
      clearbody e'
  end.

Lemma setup_optionsRead (args : option Options) (c : AudioContext) (e0 : Engine) :
  _state e0 = NotReady →
  optionsRead e0 (default noOptions args) (setup args (Some c) e0).
Proof.
  intros Hs. cbv beta delta [setup].
  destruct (decide (_state e0 ≠ NotReady)) as [Hn|_]; [done|].
  do 2 read_assignment.
  match goal with
  | e1 := _ : Engine |- optionsRead _ _ (match _context ?x with _ => _ end) =>
      assert (_context x = Some c) as Hc by reflexivity;
      assert (_volume x = _volume e0 ∧ _muted x = _muted e0 ∧
              _maxNodesPerSource x = _maxNodesPerSource e0 ∧
              _cleanUpInterval x = _cleanUpInterval e0 ∧
              _autoEnable x = _autoEnable e0) as (Hv & Hm & Hx & Hi & Ha) by done;
      clearbody x; rewrite Hc
  end.
  do 6 read_assignment.
  match goal with
  | x := _ : Engine |- optionsRead e0 _ _ =>
      assert (optionsRead e0 (default noOptions args) x)
        by (repeat match goal with y := _ |- _ => subst y end;
            unfold optionsRead;
            destruct (o_volume (default noOptions args)) as [|v|];
              [|destruct (_ && _)|];
            destruct (o_muted (default noOptions args)),
              (o_maxNodesPerSource (default noOptions args)),
              (o_cleanUpInterval (default noOptions args)),
              (o_autoEnable (default noOptions args)); done);
      clearbody x
  end.
  repeat match goal with x := _ : Engine |- _ => clear x end.
  repeat read_kept e0 (default noOptions args).
  match goal with H : optionsRead e0 _ ?e |- optionsRead e0 _ (enter _ ?e) =>
    exact H end.
Qed.

(** X6. [setup(args)] on an engine that is not set up, on a platform
    with an audio context: the engine enters Ready, or Suspended if the
    context is suspended, and that is the only state it enters; it keeps
    the context, its queue and its buzzes; the well-typed options are
    stored (a volume only from 0 to 1) and the other properties keep
    their values; the master gain node is created connected, silent if the
    engine is muted and at the volume if not. *)
Theorem setup_with_audio (args : option Options) (c : AudioContext) (e0 : Engine) :
  _state e0 = NotReady →
  let e := setup args (Some c) e0 in
  _state e = (if bool_decide (ctx_state c ≠ CtxSuspended) then Ready else Suspended) ∧
  _context e = Some c ∧
  trace e = trace e0 ++ [Entered (_state e)] ∧
  _queue e = _queue e0 ∧
  _buzzesArray e = _buzzesArray e0 ∧
  optionsRead e0 (default noOptions args) e ∧
  gainFollows e ∧
  ∃ g, _gainNode e = Some g ∧ connected g = true.
Proof.
  intros Hs e. pose proof (setup_optionsRead args c e0 Hs) as Ho. fold e in Ho.
  revert Ho.
  destruct (setup_setUpOn args c e0 Hs) as (e1 & He & Hc & Hq & Ht & Hb & _).
  destruct (setup_graphBuilt args c e0 Hs) as (g & Hg & Hcon & Hgain).
  subst e. revert Hg Hgain. rewrite He. simpl. intros Hg Hgain Ho.
  rewrite Hc, Hq, Ht, Hb. do 5 (split; [done|]). split; [exact Ho|].
  split; [|by exists g].
  intros g' Hg'. simpl in Hg'. by simplify_eq.
Qed.

Lemma setup_with_audio_witness :
  let e := setup None (Some (mkContext CtxSuspended [] 0)) newEngine in
  _state e = Suspended ∧ gainFollows e.
Proof.
  destruct (setup_with_audio None (mkContext CtxSuspended [] 0) newEngine eq_refl)
    as (H1 & _ & _ & _ & _ & _ & H2 & _).
  split; [exact H1|exact H2].
Defined.

(** X7. [setup(args)] on a platform without an audio context: the
    engine enters NoAudio and fires [error]; the volume, the mute flag and
    the subscriptions are as before, no gain node, loader or timer is
    created; and every later [setup], with whatever arguments and
    platform, leaves the engine as it is. *)
Theorem setup_without_audio (args : option Options) (e0 : Engine) :
  _state e0 = NotReady →
  let e := setup args None e0 in
  _state e = NoAudio ∧ _isAudioAvailable e = false ∧
  trace e = trace e0 ++ [Entered NoAudio; Fired "error"] ∧
  _gainNode e = _gainNode e0 ∧ _mediaLoader e = _mediaLoader e0 ∧
  _intervalId e = _intervalId e0 ∧ _volume e = _volume e0 ∧ _muted e = _muted e0 ∧
  subscriptions e = subscriptions e0 ∧
  ∀ args' platform, setup args' platform e = e.
Proof.
  intros Hs e.
  assert (e = _fire "error" (enter NoAudio
                (set_isAudioAvailable false (set_context None e0)))) as He.
  { subst e. cbv beta delta [setup].
    destruct (decide (_state e0 ≠ NotReady)) as [Hn|_]; [done|]. reflexivity. }
  clearbody e. subst e. cbn. rewrite <- app_assoc. do 9 (split; [reflexivity|]).
  intros args' platform. cbv beta delta [setup].
  by destruct (decide _) as [_|Hn]; [|destruct Hn].
Qed.

Lemma setup_without_audio_witness :
  let e := setup None None newEngine in
  _state e = NoAudio ∧
  setup None (Some (mkContext CtxRunning [] 0)) e = e.
Proof.
  destruct (setup_without_audio None newEngine eq_refl)
    as (H1 & _ & _ & _ & _ & _ & _ & _ & _ & H2).
  split; [exact H1|apply H2].
Defined.

End EngineSetupSpec.

(** ** Properties of the engine's lifecycle *)

Module EngineLifecycleSpec.
Import Js BaseBuzz Engine EngineControls EngineSpec.
Local Open Scope Q_scope.

(** Adding under a key twice is adding once. *)
Lemma queueAdd_twice phase key d q :
  Engine.queueAdd phase key d (Engine.queueAdd phase key d q)
  = Engine.queueAdd phase key d q.
Proof.
  induction q as [|[[p k] d'] q IH]; simpl.
  - by rewrite decide_True.
  - case_decide as Hpk; simpl.
    + by rewrite decide_True.
    + rewrite decide_False by done. by rewrite IH.
Qed.

(** X8. A ready engine that is suspended and, once the context has
    settled, resumed, is ready again when the context has settled the
    resumption: it differs from the engine before only by the running
    context and by the trace, in which every buzz was stopped, [stop]
    fired, and the states Suspending, Suspended, Resuming and Ready were
    entered with [suspend] and [resume] fired after Suspended and
    Ready. *)
Theorem suspend_resume_round_trip (e : Engine) (c : AudioContext) :
  consistent e → _state e = Ready → _context e = Some c →
  performAll [CallSuspend; ContextSettles; CallResume; ContextSettles] e
  = rebuilt e Ready (Some (mkContext CtxRunning [] (ctx_currentTime c))) (Some [])
      (trace e ++ (BuzzStopped <$> _buzzesArray e)
         ++ [Fired "stop"; Entered Suspending; Entered Suspended; Fired "suspend";
             Entered Resuming; Entered Ready; Fired "resume"]).
Proof.
  intros H Hs Hc.
  assert (ctx_inFlight c = [] ∧ _queue e = Some []) as [Hf Hq].
  { revert H. unfold consistent, inFlight. rewrite Hs, Hc. by intros (_ & ? & ?). }
  destruct c as [cst fl now]; simpl in Hf; subst fl.
  rewrite <- (rebuilt_same e) at 1. rewrite Hs, Hc, Hq.
  unfold performAll, perform.
  rewrite suspend_ready. cbn [snd app].
  rewrite settle_suspend. cbn [snd].
  rewrite resume_suspended. cbn [snd app].
  rewrite settle_resume. cbn [snd ctx_currentTime].
  unfold stopped. by rewrite <- !app_assoc.
Qed.

Lemma suspend_resume_round_trip_witness :
  performAll [CallSuspend; ContextSettles; CallResume; ContextSettles] readyEngine
  = rebuilt readyEngine Ready (Some (mkContext CtxRunning [] 0)) (Some [])
      (trace readyEngine ++ (BuzzStopped <$> _buzzesArray readyEngine)
         ++ [Fired "stop"; Entered Suspending; Entered Suspended; Fired "suspend";
             Entered Resuming; Entered Ready; Fired "resume"]).
Proof.
  apply (suspend_resume_round_trip readyEngine (mkContext CtxRunning [] 0)).
  - unfold consistent; simpl. split; [by eexists|]. by split.
  - reflexivity.
  - reflexivity.
Defined.

(** X9. A repeated [suspend()] or [resume()] changes nothing: in
    every state of the engine, the second of two calls in a row leaves
    the engine as the first one left it (no second transition is started,
    and a queued request takes the place of the same request queued
    before). *)
Theorem repeated_request_changes_nothing (e : Engine) :
  snd (suspend (snd (suspend e))) = snd (suspend e) ∧
  snd (resume (snd (resume e))) = snd (resume e).
Proof.
  rewrite <- (rebuilt_same e).
  generalize (trace e) as tr. generalize (_queue e) as qu.
  generalize (_context e) as ctx. generalize (_state e) as st.
  intros st ctx qu tr.
  split.
  - destruct st; try (by rewrite !suspend_ignored by done).
    + destruct ctx as [[cst fl now]|].
      * rewrite suspend_ready; cbn [snd]. by rewrite suspend_ignored.
      * reflexivity.
    + destruct qu as [q|]; [|reflexivity].
      rewrite suspend_resuming; cbn [snd]. rewrite suspend_resuming; cbn [snd].
      by rewrite queueAdd_twice.
  - destruct st; try (by rewrite !resume_ignored by done).
    + destruct qu as [q|]; [|reflexivity].
      rewrite resume_suspending; cbn [snd]. rewrite resume_suspending; cbn [snd].
      by rewrite queueAdd_twice.
    + destruct ctx as [[cst fl now]|].
      * rewrite resume_suspended; cbn [snd]. by rewrite resume_ignored.
      * reflexivity.
Qed.

(** X10. After [setup] on a new engine, with a context on which
    nothing is in flight, no call of [suspend], [resume] or [stop] and no
    settlement of the context throws, whatever calls and settlements came
    before; the queue is in place, and so is the context while the engine
    is Ready, Suspending, Suspended or Resuming. *)
Theorem calls_after_setup_return (args : option Options) (cst : ContextState)
    (now : Q) (cs : list Call) (c : Call) :
  let e := performAll cs (setup args (Some (mkContext cst [] now)) newEngine) in
  fst (perform c e) = inr tt ∧
  is_Some (_queue e) ∧
  (_state e ∈ [Ready; Suspending; Suspended; Resuming] → is_Some (_context e)).
Proof.
  intros e.
  assert (consistent e) as H by apply performAll_consistent, setup_consistent.
  split; [by apply perform_consistent|].
  revert H. unfold consistent.
  destruct (_state e); intros H; destruct_and?;
    (split; [repeat match goal with H : _ ∨ _ |- _ => destruct H end; by eexists|]);
    try done; intros Hin; apply list_elem_of_In in Hin; simpl in Hin;
    destruct Hin as [?|[?|[?|[?|[]]]]]; discriminate.
Qed.

(** X11. [_resumeAndRemoveListeners], the handler of the user input
    events, returns on an engine whose state, context and queue agree,
    and in spite of its name leaves the listeners registered (it adds
    them again); on a suspended engine it starts the resumption. *)
Theorem user_input_resumes (e : Engine) :
  consistent e →
  let r := _resumeAndRemoveListeners e in
  fst r = inr tt ∧ inputListeners (snd r) = true ∧ consistent (snd r) ∧
  (_state e = Suspended →
     _state (snd r) = Resuming ∧ inFlight (snd r) = [ResumeInFlight] ∧
     trace (snd r) = trace e ++ [Entered Resuming]).
Proof.
  intros H r. subst r. unfold _resumeAndRemoveListeners, bind.
  destruct (perform_consistent CallResume e H) as [Hr Hc]. unfold perform in Hr, Hc.
  split; [|split; [|split]].
  - destruct (resume e) as [[err|[]] e']; [discriminate|reflexivity].
  - destruct (resume e) as [[err|[]] e']; [discriminate|reflexivity].
  - destruct (resume e) as [[err|[]] e']; [discriminate|]. exact Hc.
  - intros Hs.
    assert (∃ cst now, _context e = Some (mkContext cst [] now)) as (cst & now & Hx).
    { revert H. unfold consistent, inFlight. rewrite Hs.
      destruct (_context e) as [[cst fl now]|]; simpl; [|by intros ([? ?] & _)].
      intros (_ & -> & _). by eexists _, _. }
    rewrite <- (rebuilt_same e) at 1 2 3. rewrite Hs, Hx, resume_suspended.
    by repeat split.
Qed.

Lemma user_input_resumes_witness :
  let e := performAll [CallSuspend; ContextSettles] readyEngine in
  inputListeners e = false ∧
  inputListeners (snd (_resumeAndRemoveListeners e)) = true ∧
  _state (snd (_resumeAndRemoveListeners e)) = Resuming.
Proof.
  assert (consistent readyEngine) as H0.
  { unfold consistent; simpl. split; [by eexists|]. by split. }
  pose proof (performAll_consistent [CallSuspend; ContextSettles] readyEngine H0) as H.
  destruct (user_input_resumes _ H) as (_ & H1 & _ & H2).
  split; [reflexivity|]. split; [exact H1|]. apply H2. reflexivity.
Defined.

End EngineLifecycleSpec.

(** ** Properties of [unload], [releaseForGroup] and [dispose] *)

Module LoaderReleaseSpec.
Import Pool Js Loader LoaderRelease LoaderSpec.

Lemma indexOf_middle (x : BufferingAudio) (pre suf : list BufferingAudio) :
  x ∉ pre → Loader.indexOf x (pre ++ x :: suf) = Some (length pre).
Proof.
  induction pre as [|y pre IH]; simpl; intros Hn.
  - by rewrite decide_True.
  - apply not_elem_of_cons in Hn as [Hne Hn].
    rewrite decide_False by done. by rewrite IH.
Qed.

Lemma delete_middle {A} (x : A) (pre suf : list A) :
  delete (length pre) (pre ++ x :: suf) = pre ++ suf.
Proof. induction pre as [|y pre IH]; simpl; [done|]. by rewrite IH. Qed.

Lemma spliceOut_middle (x : BufferingAudio) (pre suf : list BufferingAudio) :
  x ∉ pre → spliceOut x (pre ++ x :: suf) = pre ++ suf.
Proof.
  intros Hn. unfold spliceOut. by rewrite indexOf_middle, delete_middle.
Qed.

Lemma forEachLive_beyond (i m : nat) f p b au pr n :
  length b ≤ i →
  forEachLive (seq i m) f (mkLoader (Some p) (Some b) false au pr n)
  = (inr tt, mkLoader (Some p) (Some b) false au pr n).
Proof.
  revert i. induction m as [|m IH]; intros i Hi; simpl; [done|].
  unfold bind at 1. unfold getBuffering at 1. simpl.
  rewrite lookup_ge_None_2 by done. unfold bind at 1, ret at 1.
  apply IH. lia.
Qed.

Lemma forEachLive_cleanUp (m : nat) (pre suf : list BufferingAudio) p au pr n :
  NoDup (pre ++ suf) → length suf ≤ m →
  forEachLive (seq (length pre) m) _cleanUp
              (mkLoader (Some p) (Some (pre ++ suf)) false au pr n)
  = (inr tt, mkLoader (Some p) (Some (pre ++ oddIndexed suf)) false au pr n).
Proof.
  revert pre suf. induction m as [|m IH]; intros pre suf Hnd Hm.
  - destruct suf; [done|simpl in Hm; lia].
  - destruct suf as [|x suf].
    + apply forEachLive_beyond. rewrite length_app; simpl; lia.
    + cbn [seq forEachLive]. unfold bind at 1. unfold getBuffering at 1.
      cbn [_bufferingAudios].
      rewrite list_lookup_middle by done.
      unfold bind at 1. rewrite cleanUp_live.
      apply NoDup_app in Hnd as (Hpre & Hdisj & Hsuf).
      apply NoDup_cons in Hsuf as [Hx Hsuf].
      rewrite spliceOut_middle
        by (intros Hin; apply (Hdisj _ Hin); apply list_elem_of_here).
      destruct suf as [|y suf].
      * apply forEachLive_beyond. rewrite length_app; simpl; lia.
      * change (oddIndexed (x :: y :: suf)) with (y :: oddIndexed suf).
        replace (pre ++ y :: suf) with ((pre ++ [y]) ++ suf)
          by (by rewrite <- app_assoc).
        replace (pre ++ y :: oddIndexed suf) with ((pre ++ [y]) ++ oddIndexed suf)
          by (by rewrite <- app_assoc).
        replace (S (length pre)) with (length (pre ++ [y]))
          by (rewrite length_app; simpl; lia).
        apply IH; [|simpl in Hm; lia].
        apply NoDup_cons in Hsuf as [Hy Hsuf].
        apply NoDup_app. split; [|split; [|done]].
        -- apply NoDup_app. split; [done|]. split; [|apply NoDup_singleton].
           intros z Hz Hz'. apply list_elem_of_singleton in Hz'. subst z.
           apply (Hdisj _ Hz). apply list_elem_of_further, list_elem_of_here.
        -- intros z Hz Hz'. apply elem_of_app in Hz as [Hz|Hz].
           ++ apply (Hdisj _ Hz). by do 2 apply list_elem_of_further.
           ++ apply list_elem_of_singleton in Hz. by subst z.
Qed.

(** X12. [unload()] without an argument, on a live loader whose
    buffering entries are distinct objects: [forEach] runs over the list
    that [_cleanUp] splices, so only the entries at the even indices are
    cleaned up and those at the odd indices stay; then the unconditional
    [urls.forEach] throws a [TypeError]. The pool, the listeners of the
    audio elements and the promises are as before. *)
Theorem unload_without_argument_skips (l : MediaLoader) (b : list BufferingAudio) :
  live l → _bufferingAudios l = Some b → NoDup b →
  ∃ l', unload NoUrls l
        = (inl (TypeError "Cannot read properties of undefined (reading 'forEach')"), l') ∧
    _bufferingAudios l' = Some (oddIndexed b) ∧
    _audioPool l' = _audioPool l ∧ audios l' = audios l ∧ promises l' = promises l.
Proof.
  intros Hlive Hb Hnd.
  destruct (live_inv l Hlive) as (p & b' & au & pr & n & ->).
  simpl in Hb. injection Hb as ->.
  unfold unload. cbn [falsy]. unfold bind at 1. unfold bind at 1.
  unfold getBuffering at 1. cbn [_bufferingAudios].
  pose proof (forEachLive_cleanUp (length b) [] b p au pr n Hnd (le_n _)) as H.
  change ([] ++ b) with b in H. change (length (@nil BufferingAudio)) with 0 in H.
  rewrite H. eexists. split; [reflexivity|]. by repeat split.
Qed.

Lemma twoInFlight_buffering :
  ∃ x y, _bufferingAudios twoInFlight = Some [x; y] ∧ x ≠ y.
Proof. eexists _, _. split; [vm_compute; reflexivity|]. discriminate. Qed.

Lemma live_twoInFlight : live twoInFlight.
Proof. repeat split; vm_compute; by eexists. Qed.

Lemma unload_without_argument_skips_witness :
  ∃ x y l', _bufferingAudios twoInFlight = Some [x; y] ∧
    fst (unload NoUrls twoInFlight)
    = inl (TypeError "Cannot read properties of undefined (reading 'forEach')") ∧
    snd (unload NoUrls twoInFlight) = l' ∧
    _bufferingAudios l' = Some [y].
Proof.
  destruct twoInFlight_buffering as (x & y & Hb & Hne).
  assert (NoDup [x; y]) as Hnd.
  { apply NoDup_cons. split; [|apply NoDup_singleton].
    intros H. apply list_elem_of_singleton in H. contradiction. }
  destruct (unload_without_argument_skips twoInFlight [x; y] live_twoInFlight Hb Hnd)
    as (l' & Hu & Hb' & _).
  exists x, y, l'. rewrite Hu. by repeat split.
Defined.

(** *** [dispose] and [releaseForGroup] *)

Lemma forEach_cleanUp_live (xs : list BufferingAudio) p b au pr n :
  forEach xs _cleanUp (mkLoader (Some p) (Some b) false au pr n)
  = (inr tt, mkLoader (Some p) (Some (foldl (λ b x, spliceOut x b) b xs)) false au pr n).
Proof.
  revert b. induction xs as [|x xs IH]; intros b; simpl; [done|].
  unfold bind at 1. rewrite cleanUp_live. apply IH.
Qed.

Lemma foldl_spliceOut_filter (P : BufferingAudio → bool)
    (pre suf : list BufferingAudio) :
  NoDup (pre ++ suf) →
  foldl (λ b x, spliceOut x b) (pre ++ suf) (List.filter P suf)
  = pre ++ List.filter (λ a, negb (P a)) suf.
Proof.
  revert pre. induction suf as [|x suf IH]; intros pre Hnd; [done|].
  assert (x ∉ pre) as Hx.
  { apply NoDup_app in Hnd as (_ & Hdisj & _).
    intros Hin. apply (Hdisj _ Hin). apply list_elem_of_here. }
  cbn [List.filter]. destruct (P x); cbn [negb foldl].
  - rewrite spliceOut_middle by done. apply IH.
    apply NoDup_app in Hnd as (Hpre & Hdisj & Hsuf).
    apply NoDup_cons in Hsuf as [_ Hsuf].
    apply NoDup_app. split; [done|]. split; [|done].
    intros z Hz Hz'. apply (Hdisj _ Hz). by apply list_elem_of_further.
  - replace (pre ++ x :: suf) with ((pre ++ [x]) ++ suf) in Hnd |- *
      by (by rewrite <- app_assoc).
    rewrite IH by done. by rewrite <- app_assoc.
Qed.

(** X13. [releaseForGroup(url, groupId, free)] on a live loader
    whose buffering entries are distinct objects returns and takes every
    buffering entry of the group off the list, whatever its URL (here the
    list is filtered into a copy first), keeping the other entries in
    order; the listeners and the promises are as before and the pool is
    the one its [releaseForGroup] yields. *)
Theorem releaseForGroup_cleans_group (url : string) (groupId : nat) (free : bool)
    (l : MediaLoader) (b : list BufferingAudio) :
  live l → _bufferingAudios l = Some b → NoDup b →
  ∃ l', releaseForGroup url groupId free l = (inr tt, l') ∧
    _bufferingAudios l'
    = Some (List.filter (λ a, negb (bool_decide (b_groupId a = Some groupId))) b) ∧
    _audioPool l' = poolReleaseForGroup url groupId free <$> _audioPool l ∧
    audios l' = audios l ∧ promises l' = promises l ∧ live l'.
Proof.
  intros Hlive Hb Hnd.
  destruct (live_inv l Hlive) as (p & b' & au & pr & n & ->).
  simpl in Hb. injection Hb as ->.
  unfold releaseForGroup. unfold bind at 1. unfold getBuffering at 1.
  cbn [_bufferingAudios]. unfold bind at 1. rewrite forEach_cleanUp_live.
  pose proof (foldl_spliceOut_filter
                (λ a, bool_decide (b_groupId a = Some groupId)) [] b Hnd) as H.
  change ([] ++ b) with b in H. rewrite H.
  eexists. split; [reflexivity|]. cbn. repeat split; by eexists.
Qed.

Lemma threeInFlight_buffering :
  ∃ x y z, _bufferingAudios threeInFlight = Some [x; y; z] ∧
    NoDup [x; y; z] ∧
    b_groupId x = None ∧ b_groupId y = None ∧ b_groupId z = Some 1.
Proof.
  eexists _, _, _. split; [vm_compute; reflexivity|]. split; [|by repeat split].
  apply NoDup_cons. split.
  { intros H. apply list_elem_of_In in H. simpl in H.
    destruct H as [H|[H|[]]]; discriminate. }
  apply NoDup_cons. split; [|apply NoDup_singleton].
  intros H. apply list_elem_of_singleton in H. discriminate.
Qed.

Lemma live_threeInFlight : live threeInFlight.
Proof. repeat split; vm_compute; by eexists. Qed.

Lemma releaseForGroup_cleans_group_witness :
  ∃ x y z, _bufferingAudios threeInFlight = Some [x; y; z] ∧
    _bufferingAudios (snd (releaseForGroup "b.mp3" 1 false threeInFlight))
    = Some [x; y].
Proof.
  destruct threeInFlight_buffering as (x & y & z & Hb & Hnd & Hx & Hy & Hz).
  destruct (releaseForGroup_cleans_group "b.mp3" 1 false threeInFlight [x; y; z]
              live_threeInFlight Hb Hnd) as (l' & Hr & Hb' & _).
  exists x, y, z. split; [exact Hb|]. rewrite Hr. cbn [snd]. rewrite Hb'. simpl.
  by rewrite Hx, Hy, Hz.
Defined.

(** X14. [dispose()] on a live loader returns and nulls the pool and
    the buffering list; the listeners stay on the audio elements and the
    pending promises stay pending. After that a second [dispose()] does
    nothing, every listener that fires returns at once without settling
    anything, and the promise of every later [_load] is rejected with a
    [TypeError], no audio element being touched. *)
Theorem dispose_is_final (l : MediaLoader) :
  live l →
  ∃ l', dispose l = (inr tt, l') ∧
    _disposed l' = true ∧ _audioPool l' = None ∧ _bufferingAudios l' = None ∧
    audios l' = audios l ∧ promises l' = promises l ∧
    dispose l' = (inr tt, l') ∧
    (∀ fn err, invoke fn err l' = (inr tt, l')) ∧
    (∀ url gid, let r := _load url gid l' in
       promiseOf (fst r) (snd r) = Rejected (TypeError "Cannot read properties of null") ∧
       audios (snd r) = audios l ∧
       ∀ k, k ≠ fst r → promiseOf k (snd r) = promiseOf k l).
Proof.
  intros Hlive. destruct (live_inv l Hlive) as (p & b & au & pr & n & ->).
  unfold dispose at 1. unfold bind at 1. unfold isDisposed at 1. cbn [_disposed].
  unfold bind at 1. unfold getBuffering at 1. cbn [_bufferingAudios].
  unfold bind at 1. rewrite forEach_cleanUp_live.
  unfold bind, getPool. cbn.
  eexists. split; [reflexivity|]. cbn. do 5 (split; [reflexivity|]).
  split; [reflexivity|]. split.
  - intros [c|c] err; reflexivity.
  - intros url gid. cbn. split.
    + unfold promiseOf, settle, promiseOf; cbn. rewrite lookup_insert_eq; cbn.
      by rewrite lookup_insert_eq.
    + split.
      * unfold settle, promiseOf; cbn. by rewrite lookup_insert_eq.
      * intros k Hk. unfold settle, promiseOf; cbn. rewrite lookup_insert_eq; cbn.
        by rewrite !lookup_insert_ne by done.
Qed.

Lemma dispose_is_final_witness :
  ∃ l', dispose twoInFlight = (inr tt, l') ∧
    _disposed l' = true ∧
    audios l' = audios twoInFlight ∧
    promiseOf 0 l' = Pending ∧
    invoke (OnCanPlayThrough (mkCall "a.mp3" None 0 0)) "" l' = (inr tt, l').
Proof.
  destruct (dispose_is_final twoInFlight live_twoInFlight)
    as (l' & Hd & H1 & _ & _ & H2 & H3 & _ & H4 & _).
  exists l'. split; [exact Hd|]. split; [exact H1|]. split; [exact H2|].
  split; [|apply H4]. unfold promiseOf. rewrite H3. reflexivity.
Defined.

End LoaderReleaseSpec.

(** ** Properties of sequences of calls on a buffer-backed sound *)

Module BufferBuzzCallsSpec.
Import BaseBuzz BufferBuzz BufferBuzzCalls BufferBuzzSpec.
Local Open Scope Q_scope.

Lemma Qeq_bool_false (x y : Q) : ¬ x == y → Qeq_bool x y = false.
Proof.
  intros H. destruct (Qeq_bool x y) eqn:E; [|done].
  apply Qeq_bool_iff in E. contradiction.
Qed.

(** X15. [rate(v)] with an accepted [v] keeps the position: when the
    current position is not 0, [seek()] right after the call returns what
    it returned right before; [t] seconds later it has advanced by
    [t * v] on a playing sound and not at all on one that is not
    playing. *)
Theorem rate_keeps_position (v now t : Q) (s : BufferBuzz) :
  0 <= v → v <= 5 → wellFormed s → ¬ currentSeek now s == 0 →
  let s' := result (rate (JsNumber v) now s) in
  currentSeek now s' == currentSeek now s ∧
  (isPlaying s = true → currentSeek (now + t) s' == currentSeek now s + t * v) ∧
  (isPlaying s = false → currentSeek (now + t) s' == currentSeek now s).
Proof.
  intros H0 H5 Hwf Hnz.
  assert (∃ s', rate (JsNumber v) now s = Returned s' ∧
            _rate s' = v ∧ _rateSeek s' = currentSeek now s ∧ _startTime s' = now ∧
            _state s' = _state s ∧ _elapsed s' = _elapsed s)
    as (s' & Hr & Hv & Hrs & Hst & Hs & He).
  { unfold rate. rewrite rate_guard_passes by done.
    unfold wellFormed in Hwf. clear Hnz.
    destruct s as [st ld lp r d sk el rs sp ep stt spr sps nd tm q tr].
    unfold isPlaying in *; simpl in *.
    destruct st; try (eexists; split; [reflexivity|]; by repeat split).
    destruct Hwf as [n ->]; [done|].
    unfold _clearEndTimer; simpl.
    destruct tm; simpl; eexists; (split; [reflexivity|]); by repeat split. }
  rewrite Hr. cbn [result].
  assert (∀ u, currentSeek u s'
               = _elapsed s + ((currentSeek now s - _elapsed s)
                               + (if isPlaying s then u - now else 0) * v)) as Hcs.
  { intros u. unfold currentSeek at 1. unfold isPlaying.
    rewrite Hrs, Hst, Hs, He, Hv. by rewrite (Qeq_bool_false _ _ Hnz). }
  rewrite !Hcs. split; [|split].
  - destruct (isPlaying s); ring.
  - intros ->. ring.
  - intros ->. ring.
Qed.

Lemma rate_keeps_position_witness :
  let s' := result (rate (JsNumber 2) 8 playingSound) in
  currentSeek 8 playingSound == 8 ∧
  currentSeek 8 s' == 8 ∧
  currentSeek (8 + 1) s' == 8 + 1 * 2.
Proof.
  assert (currentSeek 8 playingSound == 8) as H8 by reflexivity.
  assert (wellFormed playingSound) as Hwf by (intros _; eexists; reflexivity).
  assert (¬ currentSeek 8 playingSound == 0) as Hnz by (rewrite H8; discriminate).
  destruct (rate_keeps_position 2 8 1 playingSound) as (H1 & H2 & _);
    [discriminate|discriminate|exact Hwf|exact Hnz|].
  split; [exact H8|]. split.
  - by rewrite H1.
  - rewrite (H2 eq_refl). by rewrite H8.
Defined.

(** X16. On a loaded sound that is not playing, [seek(p)] with [p]
    from 0 to the duration keeps the state and fires [seek]; a following
    [seek()] returns [p] if no rate anchor is set ([_rateSeek] is 0), and
    the rate anchor, not [p], if one is set. *)
Theorem seek_then_read (p now now' : Q) (s : BufferBuzz) :
  isLoaded s = true → isPlaying s = false → 0 <= p → p <= _duration s →
  let s' := seek (JsNumber p) now s in
  _state s' = _state s ∧
  trace s' = trace s ++ [Fired "seek" (Some p)] ∧
  (_rateSeek s == 0 → currentSeek now' s' == p) ∧
  (¬ _rateSeek s == 0 → currentSeek now' s' == _rateSeek s).
Proof.
  intros Hl Hp H0 Hd s'. subst s'. rewrite seek_not_playing by done.
  unfold currentSeek, isPlaying in *. cbn.
  destruct (_state s); try discriminate; (split; [reflexivity|]);
    (split; [reflexivity|]);
    (split; intros Hrs;
       [apply Qeq_bool_iff in Hrs | apply Qeq_bool_false in Hrs]; rewrite Hrs; ring).
Qed.

Lemma seek_then_read_witness :
  currentSeek 7 (seek (JsNumber 3) 1 (loadedSound 10 1 false)) == 3.
Proof.
  destruct (seek_then_read 3 1 7 (loadedSound 10 1 false)) as (_ & _ & H & _);
    [reflexivity|reflexivity|discriminate|discriminate|].
  apply H. reflexivity.
Defined.



(** *** Sequences of calls *)

Lemma play_wellFormed sound fireEvent now s :
  wellFormed s → wellFormed (_play sound fireEvent now s).
Proof.
  intros Hwf. unfold _play. destruct (isPlaying s) eqn:Hp; [done|].
  destruct (isLoaded s); cbn [negb].
  - intros _.
    repeat match goal with
           | |- context [match ?x with _ => _ end] => destruct x
           end; by eexists.
  - unfold wellFormed, load, isPlaying in *. cbn. by rewrite Hp.
Qed.

Lemma pause_not_playing fireEvent now s : isPlaying (_pause fireEvent now s) = false.
Proof.
  unfold _pause, _reset, _clearEndTimer, _stopNode, _cleanNode.
  destruct s as [st ld lp r d sk el rs sp ep stt spr sps nd tm q tr].
  by destruct fireEvent, tm, nd.
Qed.

Lemma seek_wellFormed arg now s : wellFormed s → wellFormed (seek arg now s).
Proof.
  intros Hwf. unfold seek. destruct arg as [|p|]; try done.
  destruct (Qltb p 0); [done|].
  destruct (isLoaded s); cbn [negb].
  - destruct (Qltb (_duration s) p); [done|].
    destruct (isPlaying s) eqn:Hp.
    + apply play_wellFormed. intros H. exfalso.
      change (isPlaying (_pause false now s) = true) in H.
      by rewrite pause_not_playing in H.
    + unfold wellFormed, isPlaying in *. cbn. by rewrite Hp.
  - unfold wellFormed, _load, isPlaying in *. cbn. exact Hwf.
Qed.

Lemma onEnded_wellFormed now s : wellFormed s → wellFormed (_onEnded now s).
Proof.
  intros Hwf. unfold _onEnded. destruct (_loop s).
  - unfold wellFormed, isPlaying in *. cbn. exact Hwf.
  - unfold wellFormed, isPlaying, _clearEndTimer, _cleanNode.
    destruct s as [st ld lp r d sk el rs sp ep stt spr sps nd tm q tr].
    by destruct tm, nd.
Qed.

Lemma rate_wellFormed arg now s :
  wellFormed s → ∃ s', rate arg now s = Returned s' ∧ wellFormed s'.
Proof.
  intros Hwf. destruct arg as [|v|]; [by eexists|..|by eexists].
  unfold rate. destruct (Qltb v 0 || Qltb 5 v); [by eexists|].
  unfold wellFormed in *.
  destruct s as [st ld lp r d sk el rs sp ep stt spr sps nd tm q tr].
  unfold isPlaying in *; cbn in *.
  destruct st; try (eexists; split; [reflexivity|]; done).
  destruct Hwf as [n ->]; [done|].
  unfold _clearEndTimer; cbn.
  destruct tm; cbn; eexists; (split; [reflexivity|]); by eexists.
Qed.

Lemma perform_wellFormed c now s : wellFormed s → wellFormed (perform c now s).
Proof.
  intros Hwf. destruct c; cbn [perform].
  - by apply play_wellFormed.
  - by apply play_wellFormed.
  - by apply seek_wellFormed.
  - by destruct (rate_wellFormed arg now s Hwf) as (s' & -> & Hwf').
  - by apply onEnded_wellFormed.
Qed.

(** X18. A playing sound has its buffer source node: this holds of the
    sound before and after every call of [play], [playSprite], [seek] and
    [rate] and every firing of the end timer, in whatever order and with
    whatever arguments, as long as the calls stay where the embedding
    follows the program (ordered regions, no inherited name asked for as
    a sprite sound). So, starting from such a sound (a sound that is not
    playing is one), [rate] never reaches the write to the playback rate
    of a node that is null: after every such sequence, [rate] returns for
    every argument. What the node's own methods may throw is not part of
    the embedding. *)
Theorem playing_sound_keeps_its_node (cs : list (Q * Call)) (s : BufferBuzz) :
  wellFormed s → withinModel cs s = true →
  wellFormed (performAll cs s) ∧
  ∀ arg now, ∃ s', rate arg now (performAll cs s) = Returned s' ∧ wellFormed s'.
Proof.
  intros Hwf _.
  assert (wellFormed (performAll cs s)) as H.
  { revert s Hwf. induction cs as [|[now c] cs IH]; intros s Hwf; [done|].
    cbn [performAll]. by apply IH, perform_wellFormed. }
  split; [exact H|]. intros arg now. by apply rate_wellFormed.
Qed.

Lemma playing_sound_keeps_its_node_witness :
  let s := performAll [(0, Play); (1, Rate (JsNumber 2)); (2, Seek (JsNumber 3));
                       (4, TimerFires); (5, PlaySprite "intro")] spriteSound in
  isPlaying s = true ∧ is_Some (_bufferSourceNode s) ∧
  ∃ s', rate (JsNumber 1) 6 s = Returned s'.
Proof.
  intros s.
  destruct (playing_sound_keeps_its_node
              [(0, Play); (1, Rate (JsNumber 2)); (2, Seek (JsNumber 3));
               (4, TimerFires); (5, PlaySprite "intro")] spriteSound)
    as [Hwf Hrate].
  - intros H. discriminate H.
  - reflexivity.
  - assert (isPlaying s = true) as Hp by reflexivity.
    split; [exact Hp|]. split; [exact (Hwf Hp)|].
    destruct (Hrate (JsNumber 1) 6) as (s' & Hs' & _). by exists s'.
Defined.

(** Two sounds with the same fields are the same sound. *)
Lemma buzz_ext (s s' : BufferBuzz) :
  _state s = _state s' → _loaded s = _loaded s' → _loop s = _loop s' →
  _rate s = _rate s' → _duration s = _duration s' → _seek s = _seek s' →
  _elapsed s = _elapsed s' → _rateSeek s = _rateSeek s' →
  _startPos s = _startPos s' → _endPos s = _endPos s' →
  _startTime s = _startTime s' → _sprite s = _sprite s' →
  _spriteSound s = _spriteSound s' → _bufferSourceNode s = _bufferSourceNode s' →
  _endTimer s = _endTimer s' → _actionQueue s = _actionQueue s' →
  trace s = trace s' → s = s'.
Proof. destruct s, s'; simpl; intros; by subst. Qed.

(** The sound that [_onEnded] leaves behind when it does not loop. *)
Lemma onEnded_once (ended : Q) (s : BufferBuzz) :
  _loop s = false →
  _onEnded ended s
  = mkBufferBuzz Idle (_loaded s) false (_rate s) (_duration s) 0 (_elapsed s) 0
                 (_startPos s) (_endPos s) (_startTime s) (_sprite s) (_spriteSound s)
                 None None (_actionQueue s)
                 (trace s ++ [Entered Idle; Fired "playend" None]).
Proof.
  intros Hlp. unfold _onEnded. rewrite Hlp.
  unfold _clearEndTimer, _cleanNode.
  destruct s as [st ld lp r d sk el rs sp ep stt spr sps [n|] [t|] q tr];
    simpl in Hlp; subst lp;
    apply buzz_ext; simpl; try reflexivity; by rewrite <- app_assoc.
Qed.

(** [play()] on a loaded sound that is idle and at rest. *)
Lemma play_idle (now : Q) lp r d el rs sp ep stt spr sps q tr :
  play now (mkBufferBuzz Idle true lp r d 0 el rs sp ep stt spr sps None None q tr)
  = mkBufferBuzz Playing true lp r d 0 el rs 0 d now spr None
                 (Some (mkNode r lp 0 d now (Qmax 0 0) (d - 0)))
                 (Some (mkTimer now (jsdiv ((d - 0) * 1000) r))) q
                 (tr ++ [Entered Playing; Fired "play" None]).
Proof.
  unfold play, _play. cbn [isPlaying isLoaded _state _loaded negb].
  apply buzz_ext; simpl; destruct (bool_decide (None = sps)); simpl;
    try reflexivity; by rewrite <- app_assoc.
Qed.

(** X19. When the end timer has fired on a loaded sound that does not
    loop, [play()] plays the whole file again: the sprite sound is
    forgotten, the region is [0, duration], the node is started at 0 for
    the whole duration and the end timer is armed for
    [duration * 1000 / rate]; the trace shows Idle, [playend], Playing,
    [play]. *)
Theorem play_after_end (ended now : Q) (s : BufferBuzz) :
  isLoaded s = true → _loop s = false →
  let s' := play now (_onEnded ended s) in
  _state s' = Playing ∧ _spriteSound s' = None ∧
  _startPos s' = 0 ∧ _endPos s' = _duration s ∧
  _bufferSourceNode s'
  = Some (mkNode (_rate s) false 0 (_duration s) now (Qmax 0 0) (_duration s - 0)) ∧
  _endTimer s' = Some (mkTimer now (jsdiv ((_duration s - 0) * 1000) (_rate s))) ∧
  trace s' = trace s ++ [Entered Idle; Fired "playend" None;
                         Entered Playing; Fired "play" None].
Proof.
  intros Hl Hlp s'. subst s'. rewrite onEnded_once by done.
  unfold isLoaded in Hl. rewrite Hl, play_idle.
  cbn [_state _spriteSound _startPos _endPos _bufferSourceNode _endTimer trace].
  rewrite <- app_assoc. by repeat split.
Qed.

Lemma play_after_end_witness :
  let s' := play 12 (_onEnded 10 playingSound) in
  _state s' = Playing ∧
  _endTimer s' = Some (mkTimer 12 (jsdiv ((10 - 0) * 1000) 1)).
Proof.
  destruct (play_after_end 10 12 playingSound eq_refl eq_refl)
    as (H1 & _ & _ & _ & _ & H4 & _).
  split; [exact H1|exact H4].
Defined.

End BufferBuzzCallsSpec.


(** ** Properties of unloading media through the engine *)

Module EngineMediaSpec.
Import Js Loader Engine EngineMedia LoaderSpec.

Lemma removeAudioObjOfUrl_live url p b au pr n :
  ∃ b', removeAudioObjOfUrl url (mkLoader (Some p) (Some b) false au pr n)
        = (inr tt, mkLoader (Some p) (Some b') false au pr n).
Proof.
  unfold removeAudioObjOfUrl, bind, getBuffering. cbn [_bufferingAudios].
  destruct (List.find _ b); [rewrite cleanUp_live|]; by eexists.
Qed.

Lemma forEach_removeAudioObjOfUrl_live us p b au pr n :
  ∃ b', forEach us removeAudioObjOfUrl (mkLoader (Some p) (Some b) false au pr n)
        = (inr tt, mkLoader (Some p) (Some b') false au pr n).
Proof.
  revert b. induction us as [|u us IH]; intros b; cbn [forEach]; [by eexists|].
  unfold bind at 1.
  destruct (removeAudioObjOfUrl_live u p b au pr n) as (b1 & ->). apply IH.
Qed.

Lemma forEach_releaseUrl_live us p b au pr n :
  ∃ p', forEach us releaseUrl (mkLoader (Some p) (Some b) false au pr n)
        = (inr tt, mkLoader (Some p') (Some b) false au pr n).
Proof.
  revert p. induction us as [|u us IH]; intros p; cbn [forEach]; [by eexists|].
  unfold bind at 1. unfold releaseUrl at 1, bind, getPool, setPool.
  cbn [_audioPool _bufferingAudios _disposed audios promises nextPromise]. apply IH.
Qed.

Lemma unload_array_live us l :
  live l → ∃ l', unload (ManyUrls us) l = (inr tt, l') ∧ live l' ∧
                 audios l' = audios l ∧ promises l' = promises l.
Proof.
  intros Hlive. destruct (live_inv l Hlive) as (p & b & au & pr & n & ->).
  unfold unload. cbn [falsy]. unfold bind at 1.
  destruct (forEach_removeAudioObjOfUrl_live us p b au pr n) as (b' & ->).
  destruct (forEach_releaseUrl_live us p b' au pr n) as (p' & ->).
  eexists. split; [reflexivity|]. split; [apply live_mk|]. by split.
Qed.

(** A loader method that throws on every loader throws when it is called
    on the engine's loader, and so does the read of a loader that is
    null. *)
Lemma onMediaLoader_throws {A} (m : Js.M MediaLoader A) (e : Engine) :
  (∀ l, ∃ err l', m l = (inl err, l')) →
  ∃ err e', onMediaLoader m e = (inl err, e').
Proof.
  intros Hm. unfold onMediaLoader, bind, getMediaLoader.
  destruct (_mediaLoader e) as [l|]; [|by eexists _, _].
  destruct (Hm l) as (err & l' & ->). by eexists _, _.
Qed.

Lemma unloadMedia_array us l e :
  _mediaLoader e = Some l → live l →
  ∃ l', unloadMedia (ManyUrls us) e = (inr tt, set_mediaLoader (Some l') e) ∧
        live l' ∧ audios l' = audios l ∧ promises l' = promises l.
Proof.
  intros Hl Hlive. unfold unloadMedia. cbn [falsy].
  unfold onMediaLoader, bind, getMediaLoader. rewrite Hl.
  destruct (unload_array_live us l Hlive) as (l' & -> & Hl' & Ha & Hp).
  by exists l'.
Qed.

(** X20. [unloadMedia(urls)] hands the loader's exception on: called
    without an argument or with a single URL it throws, on every engine
    (the loader's [unload] ends in [urls.forEach], and a loader that is
    null cannot be called); called with an array of URLs on an engine
    whose loader is live it returns, and the loader is still live with
    the same listeners and promises. *)
Theorem unloadMedia_returns_only_for_arrays (e : Engine) :
  (∃ err e', unloadMedia NoUrls e = (inl err, e')) ∧
  (∀ url, ∃ err e', unloadMedia (OneUrl url) e = (inl err, e')) ∧
  (∀ us l, _mediaLoader e = Some l → live l →
     ∃ l', unloadMedia (ManyUrls us) e = (inr tt, set_mediaLoader (Some l') e) ∧
           live l' ∧ audios l' = audios l ∧ promises l' = promises l).
Proof.
  split; [|split].
  - unfold unloadMedia. cbn [falsy]. apply onMediaLoader_throws.
    intros l. apply (unload_throws_unless_array l).
  - intros url. unfold unloadMedia.
    destruct (falsy (OneUrl url)); apply onMediaLoader_throws;
      intros l; destruct (unload_throws_unless_array l) as [H0 H1];
      [exact H0|apply H1].
  - intros us l. apply unloadMedia_array.
Qed.

Lemma live_create (maxNodes : nat) : live (Loader.create maxNodes).
Proof. repeat split; by eexists. Qed.

Lemma unloadMedia_returns_only_for_arrays_witness :
  (∃ err e', unloadMedia (OneUrl "a.mp3") readyEngine = (inl err, e')) ∧
  ∃ l', unloadMedia (ManyUrls ["a.mp3"]) readyEngine
        = (inr tt, set_mediaLoader (Some l') readyEngine) ∧ live l'.
Proof.
  destruct (unloadMedia_returns_only_for_arrays readyEngine) as (_ & H1 & H2).
  split; [apply H1|].
  destruct (H2 ["a.mp3"] (Loader.create 10) eq_refl (live_create 10))
    as (l' & H & Hl & _).
  by exists l'.
Defined.

End EngineMediaSpec.
